(** * xavi: round-robin load balancer, custom health-check registry and
    end-to-end timer

    A shallow embedding of [loadbalancer/roundrobin.go] and of the parts of
    the packages [config] and [timer] that its tests exercise.

    Go packages become modules.  A method with a pointer receiver takes the
    receiver's value and returns the value it leaves behind.  Calls into the
    process-wide metrics sink, the package-level mutex and the [go] statement
    are recorded, in program order, in a trace of events.  Calls to the logger
    have no effect on any value modelled here and are left out.

    The development follows one thread of control.  The health checks that
    [NewLoadBalancer] starts run on their own and their code is not among the
    sources; what is proved about a sequence of calls holds for the runs in
    which nothing else writes an endpoint between two calls of the
    sequence. *)

From Stdlib Require Import ZArith QArith Ascii String DecimalString.
From stdpp Require Import base list strings gmap.


(** ** Go's [error] values

    Every error of [roundrobin.go] is made by [fmt.Errorf]: it is its
    message.  The [nil] error is [None]. *)

Definition error : Type := string.

(** ** Package [fmt]: the two verbs used by the sources *)

Module fmt.

(** [%d] of an [int]: decimal digits, with a leading minus sign below
    zero. *)
Definition formatInt (z : Z) : string :=
  NilZero.string_of_int (Z.to_int z).

End fmt.

(** ** Package [strings] *)

Module strings.

(** [strings.Split(s, sep)] for a separator of one byte: the fields
    between the occurrences of [sep]; one more field than there are
    separators, so never the empty slice. *)
Fixpoint Split (s : string) (sep : ascii) : list string :=
  match s with
  | EmptyString => [EmptyString]
  | String c s' =>
      if decide (c = sep) then EmptyString :: Split s' sep
      else match Split s' sep with
           | f :: fs => String c f :: fs
           | [] => [String c EmptyString]
           end
  end.

End strings.

(** ** Package [container/ring]

    A ring is a cycle of slots and a [*Ring] designates one of them.  The
    cycle is the list [slots], in [Next] order, and the designated slot is
    the index [pos].  The [nil] ring is the one without slots.  A slot
    written through a pointer obtained earlier is written at the index that
    pointer designated.  [Value] and [Next] are not defined by Go on the
    [nil] ring; the loops of the load balancer run [Len] turns and so never
    reach them there, and the model gives them the values below. *)

Module ring.

Section Ring.
Context {A : Type}.

Record Ring : Type := mkRing { slots : list A; pos : nat }.

Definition Len (r : Ring) : nat := length (slots r).

(** [r.Value], an [option]: the empty ring has none. *)
Definition Value (r : Ring) : option A := slots r !! pos r.

Definition Next (r : Ring) : Ring :=
  match slots r with
  | [] => r
  | _ :: _ => mkRing (slots r) (S (pos r) mod length (slots r))
  end.

(** [r.Value = v] *)
Definition SetValue (r : Ring) (v : A) : Ring :=
  mkRing (<[pos r := v]> (slots r)) (pos r).

(** A [*Ring] of Go always designates a slot of its cycle. *)
Definition ok (r : Ring) : Prop :=
  pos r < length (slots r) \/ (slots r = [] /\ pos r = 0).

End Ring.

Arguments Ring A : clear implicits.

(** [ring.New(n)]: [n] slots, each holding the [nil] interface value
    [zero]. *)
Definition New {A : Type} (zero : A) (n : nat) : Ring A :=
  mkRing (replicate n zero) 0.

End ring.

(** ** Package [config] *)

Module config.

(** Modelled from the spec: the record [ServerConfig], declared in a file
    of package [config] that is not among the sources; the fields are those
    of the data model, [Port] an [int]. *)
Record ServerConfig : Type := mkServerConfig {
  Name : string;
  Address : string;
  Port : Z;
  PingURI : string;
  PingProtocol : string;
  HealthCheckInterval : Z;
  HealthCheckTimeout : Z
}.

(** Modelled from the spec: the key/value store the configuration is read
    from, [Get(key)] returning the bytes stored under [key]; the record of
    server [name] lives under [servers/<name>]. *)
Definition KVStore : Type := gmap string string.

Definition serverKey (name : string) : string := "servers/" +:+ name.

Definition serverExists (kvs : KVStore) (name : string) : bool :=
  bool_decide (is_Some (kvs !! serverKey name)).

(** Modelled from the spec: the two error values of the custom
    health-check registry, declared in a file of package [config] that is
    not among the sources. *)
Inductive RegistryError : Type := ErrNoHealthCheckFn | ErrNoSuchServer.

Section Registry.
(** The function type [HealthCheckFn]; a [nil] function is [None]. *)
Variable HealthCheckFn : Type.

(** The process-wide registry is a map from server names to functions,
    passed in and out. *)

(** Modelled from the spec: [RegisterHealthCheckForServer], defined in a
    file of package [config] that is not among the sources.  A [nil]
    function is refused first ([TestCustomHCNoFunction] registers [nil]
    under a name that is no server and expects [ErrNoHealthCheckFn]),
    then a name without a server record. *)
Definition RegisterHealthCheckForServer (kvs : KVStore) (name : string)
    (healthCheckFn : option HealthCheckFn) (registry : gmap string HealthCheckFn)
  : option RegistryError * gmap string HealthCheckFn :=
  match healthCheckFn with
  | None => (Some ErrNoHealthCheckFn, registry)
  | Some fn =>
      if serverExists kvs name then (None, <[name := fn]> registry)
      else (Some ErrNoSuchServer, registry)
  end.

(** Modelled from the spec: [HealthCheckForServer], the registered
    function or [nil]. *)
Definition HealthCheckForServer (name : string)
    (registry : gmap string HealthCheckFn) : option HealthCheckFn :=
  registry !! name.

End Registry.

(** Modelled from the spec: the configuration [BuildKVStoreTestConfig]
    builds for the tests, defined in a file that is not among the sources;
    it has a server named [server1]. *)
Definition testConfig : KVStore := {[ serverKey "server1" := "server1" ]}.

(** The verdicts a health check sends, for the function values of the
    tests: [simpleHC] sends [true] once. *)
Definition simpleHC (endpoint : string) : list bool := [true].

End config.

(** ** Effects *)

Inductive Event : Type :=
| SetGauge (key : list string) (val : Q)
    (** [metrics.SetGauge(key, val)] *)
| MutexLock
    (** [roundRobinLoadBalancerMutex.Lock()] *)
| MutexUnlock
    (** [roundRobinLoadBalancerMutex.Unlock()] *)
| GoHealthCheck (address : string) (s : config.ServerConfig)
    (** [go MakeHealthCheck(lbEndpoint, s, true)()] *).

(** A computation returns a value and the events it caused. *)
Definition Eff (A : Type) : Type := A * list Event.

Definition ret {A} (a : A) : Eff A := (a, []).

Definition bind {A B} (m : Eff A) (k : A -> Eff B) : Eff B :=
  let (b, t) := k (fst m) in (b, snd m ++ t).

Definition emit (e : Event) : Eff unit := (tt, [e]).

Definition result {A} (m : Eff A) : A := fst m.
Definition events {A} (m : Eff A) : list Event := snd m.

Declare Scope eff_scope.
Delimit Scope eff_scope with eff.
Notation "'let!' x ':=' m 'in' k" := (bind m (fun x => k))
  (at level 10, x pattern, m at level 100, k at level 200) : eff_scope.
Notation "m ';;' k" := (bind m (fun _ => k))
  (at level 100, k at level 200, right associativity) : eff_scope.

(** ** Package [loadbalancer] *)

Module loadbalancer.

Import ring.

(** Modelled from the spec: the record [LoadBalancerEndpoint] and its
    method [IsUp], declared in a file of package [loadbalancer] that is not
    among the sources.  The data model gives the four fields; [IsUp]
    reads the [Up] flag. *)
Record LoadBalancerEndpoint : Type := mkEndpoint {
  Address : string;
  PingURI : string;
  Up : bool;
  CACertPath : string
}.

Definition IsUp (e : LoadBalancerEndpoint) : bool := Up e.

(** [loadBalancingEndpoint.Up = status] *)
Definition setUp (e : LoadBalancerEndpoint) (status : bool)
  : LoadBalancerEndpoint :=
  mkEndpoint (Address e) (PingURI e) status (CACertPath e).

(** What a slot of the ring holds: an [interface{}].  [Some e] is a
    pointer to a [LoadBalancerEndpoint]; [None] is anything on which the
    type assertion to that pointer type fails, the [nil] of [ring.New]
    included. *)
Abbreviation any := (option LoadBalancerEndpoint).

Record RoundRobinLoadBalancer : Type := mkRR {
  backend : string;
  servers : Ring any
}.

(** The slot read by [rr.servers.Value]. *)
Definition current (r : Ring any) : any := default None (Value r).

(** [fmt.Sprintf("%s:%d", s.Address, s.Port)] *)
Definition connectAddress (s : config.ServerConfig) : string :=
  config.Address s +:+ ":" +:+ fmt.formatInt (config.Port s).

(** The endpoint [NewLoadBalancer] builds for one server. *)
Definition newEndpoint (caCertPath : string) (s : config.ServerConfig)
  : LoadBalancerEndpoint :=
  mkEndpoint (connectAddress s) (config.PingURI s) true caCertPath.

(** The slots filled for a list of servers, in the order of the list. *)
Definition newSlots (caCertPath : string) (ss : list config.ServerConfig)
  : list any :=
  (fun s => Some (newEndpoint caCertPath s)) <$> ss.

(** The events of one turn of the [range servers] loop: the gauge of the
    endpoint set to one, its health check started. *)
Definition serverEvents (s : config.ServerConfig) : list Event :=
  [SetGauge ["endpoint"; connectAddress s] 1;
   GoHealthCheck (connectAddress s) s].

(** One turn of the [range servers] loop of [NewLoadBalancer]. *)
Definition addServer (caCertPath : string) (r : Ring any)
    (s : config.ServerConfig) : Eff (Ring any) :=
  (let lbEndpoint := newEndpoint caCertPath s in
   emit (SetGauge ["endpoint"; Address lbEndpoint] 1) ;;
   emit (GoHealthCheck (Address lbEndpoint) s) ;;
   ret (Next (SetValue r (Some lbEndpoint))))%eff.

Fixpoint addServers (caCertPath : string) (r : Ring any)
    (ss : list config.ServerConfig) : Eff (Ring any) :=
  match ss with
  | [] => ret r
  | s :: ss' =>
      (let! r' := addServer caCertPath r s in
       addServers caCertPath r' ss')%eff
  end.

(** [NewLoadBalancer] returns the pair [(LoadBalancer, error)]; [None] in
    the first component is the [nil] interface value. *)
Definition NewLoadBalancer (backendName caCertPath : string)
    (servers : list config.ServerConfig)
  : Eff (option RoundRobinLoadBalancer * option error) :=
  if decide (backendName = "") then
    ret (None, Some "Expected non-empty backend name")
  else if decide (length servers = 0) then
    ret (None, Some "Expected at least one server in servers argument")
  else
    (let! r := addServers caCertPath (New None (length servers)) servers in
     ret (Some (mkRR backendName r), None))%eff.

(** The [for] loop of [GetConnectAddress], with [n] turns left: the
    address found (empty when the loop ends without [break]) and the ring
    pointer left in [rr.servers]. *)
Fixpoint findUp (n : nat) (r : Ring any) : string * Ring any :=
  match n with
  | 0 => ("", r)
  | S n' =>
      let s := current r in
      let r' := Next r in
      match s with
      | Some loadBalancingEndpoint =>
          if IsUp loadBalancingEndpoint
          then (Address loadBalancingEndpoint, r')
          else findUp n' r'
      | None => findUp n' r'
      end
  end.

Definition ErrAllDown (backendName : string) : error :=
  "All servers in backend " +:+ backendName +:+ " are marked down".

Definition GetConnectAddress (rr : RoundRobinLoadBalancer)
  : Eff ((string * option error) * RoundRobinLoadBalancer) :=
  (emit MutexLock ;;
   let (address, r') := findUp (Len (servers rr)) (servers rr) in
   let rr' := mkRR (backend rr) r' in
   emit MutexUnlock ;;
   if decide (address = "") then ret (("", Some (ErrAllDown (backend rr))), rr')
   else ret ((address, None), rr'))%eff.

(** The [for] loop of [changeEndpointStatus], with [n] turns left:
    [foundIt] and the ring left in [rr.servers].  The assignment to [Up]
    goes through the pointer read from the slot before [Next]: it writes
    that slot. *)
Fixpoint findAndSet (n : nat) (connectAddress : string) (status : bool)
    (r : Ring any) : bool * Ring any :=
  match n with
  | 0 => (false, r)
  | S n' =>
      let here := pos r in
      let s := current r in
      let r' := Next r in
      match s with
      | Some loadBalancingEndpoint =>
          if decide (Address loadBalancingEndpoint = connectAddress)
          then (true,
                mkRing (<[here := Some (setUp loadBalancingEndpoint status)]>
                          (slots r'))
                       (pos r'))
          else findAndSet n' connectAddress status r'
      | None => findAndSet n' connectAddress status r'
      end
  end.

Definition ErrEmptyAddress : error := "Non-empty connectAddress expected".

Definition ErrAddressForm (connectAddress : string) : error :=
  "Expected connect address in the form of host:port (" +:+ connectAddress
    +:+ ")".

Definition ErrNotInPool (connectAddress : string) : error :=
  "Address not found in load balancing pool: " +:+ connectAddress.

Definition changeEndpointStatus (rr : RoundRobinLoadBalancer)
    (connectAddress : string) (status : bool)
  : Eff (option error * RoundRobinLoadBalancer) :=
  if decide (connectAddress = "") then ret (Some ErrEmptyAddress, rr)
  else
    let addrParts := strings.Split connectAddress ":" in
    if decide (length addrParts = 2) then
      let (foundIt, r') :=
        findAndSet (Len (servers rr)) connectAddress status (servers rr) in
      let rr' := mkRR (backend rr) r' in
      if foundIt then ret (None, rr')
      else ret (Some (ErrNotInPool connectAddress), rr')
    else ret (Some (ErrAddressForm connectAddress), rr).

Definition MarkEndpointUp (rr : RoundRobinLoadBalancer)
    (connectAddress : string)
  : Eff (option error * RoundRobinLoadBalancer) :=
  (emit (SetGauge ["endpoint"; connectAddress] 1) ;;
   changeEndpointStatus rr connectAddress true)%eff.

Definition MarkEndpointDown (rr : RoundRobinLoadBalancer)
    (connectAddress : string)
  : Eff (option error * RoundRobinLoadBalancer) :=
  (emit (SetGauge ["endpoint"; connectAddress] 0) ;;
   changeEndpointStatus rr connectAddress false)%eff.

(** [GetEndpoints]: [Do] visits every slot once, from the designated one,
    and leaves [rr.servers] alone. *)
Definition GetEndpoints (rr : RoundRobinLoadBalancer)
  : list string * list string :=
  let visited := rotate (pos (servers rr)) (slots (servers rr)) in
  let endpoints := omap id visited in
  (Address <$> filter (fun e => Up e = true) endpoints,
   Address <$> filter (fun e => Up e = false) endpoints).

(** The test [changeEndpointStatus] makes of its argument before it
    searches the pool: not empty, and two fields around one colon. *)
Definition hostPortForm (connectAddress : string) : Prop :=
  connectAddress <> "" /\ length (strings.Split connectAddress ":") = 2.




(** *** Sequences of calls on one load balancer *)

Inductive Call : Type :=
| CallGet
| CallUp (connectAddress : string)
| CallDown (connectAddress : string).

Inductive Reply : Type :=
| Connect (address : string) (err : option error)
| Marked (err : option error).

Definition call (c : Call) (rr : RoundRobinLoadBalancer)
  : Reply * RoundRobinLoadBalancer :=
  match c with
  | CallGet =>
      let '((address, err), rr') := result (GetConnectAddress rr) in
      (Connect address err, rr')
  | CallUp a =>
      let '(err, rr') := result (MarkEndpointUp rr a) in (Marked err, rr')
  | CallDown a =>
      let '(err, rr') := result (MarkEndpointDown rr a) in (Marked err, rr')
  end.

#[global] Instance Call_eq_dec : EqDecision Call.
Proof. solve_decision. Defined.

#[global] Instance Reply_eq_dec : EqDecision Reply.
Proof. solve_decision. Defined.

Fixpoint calls (cs : list Call) (rr : RoundRobinLoadBalancer)
  : list Reply * RoundRobinLoadBalancer :=
  match cs with
  | [] => ([], rr)
  | c :: cs' =>
      let (rep, rr') := call c rr in
      let (reps, rr'') := calls cs' rr' in
      (rep :: reps, rr'')
  end.

(** Every endpoint of the pool with address [a] is marked down. *)
Definition addressDown (a : string) (rr : RoundRobinLoadBalancer) : Prop :=
  forall e, Some e ∈ slots (servers rr) -> Address e = a -> Up e = false.

(** At most one slot of the pool holds an endpoint with address [a]. *)
Definition addressOnce (a : string) (rr : RoundRobinLoadBalancer) : Prop :=
  forall i j ei ej,
    slots (servers rr) !! i = Some (Some ei) ->
    slots (servers rr) !! j = Some (Some ej) ->
    Address ei = a -> Address ej = a -> i = j.

(** *** The pools of the scenarios *)

Definition server (address : string) (port : Z) : config.ServerConfig :=
  config.mkServerConfig address address port "/ping" "http" 5000 1000.

(** Servers [a:1], [a:2], [a:3]. *)
Definition a123 : list config.ServerConfig :=
  [server "a" 1; server "a" 2; server "a" 3].

(** Two servers at the same host and port. *)
Definition twins : list config.ServerConfig :=
  [server "a" 1; server "a" 1].

(** The load balancers [NewLoadBalancer] returns for them. *)
Definition pool123 : RoundRobinLoadBalancer :=
  mkRR "backend" (mkRing (newSlots "" a123) 0).

Definition poolTwins : RoundRobinLoadBalancer :=
  mkRR "backend" (mkRing (newSlots "" twins) 0).



(** One server whose host is an IPv6 literal. *)
Definition loopback6 : list config.ServerConfig := [server "::1" 8080].

(** The pool a:1, a:2, a:3 after [MarkEndpointDown("a:2")]. *)
Definition pool123A2Down : RoundRobinLoadBalancer :=
  (result (MarkEndpointDown pool123 "a:2")).2.

(** *** The two lists of [GetEndpoints] *)

(** The slots in the order [Do] visits them: from the designated slot,
    once around the ring. *)
Definition visited (r : Ring any) : list any := rotate (pos r) (slots r).

(** The addresses [GetEndpoints] appends to [healthy], respectively to
    [unhealthy], on a sequence of visited slots. *)
Definition healthyOf (vs : list any) : list string :=
  Address <$> filter (fun e => Up e = true) (omap id vs).

Definition unhealthyOf (vs : list any) : list string :=
  Address <$> filter (fun e => Up e = false) (omap id vs).

(** A slot [GetConnectAddress] passes over: an endpoint that is down, or
    no endpoint. *)
Definition notUp (v : any) : Prop :=
  match v with Some e => Up e = false | None => True end.

(** What [NewLoadBalancer] fixes for an endpoint once and for all. *)
Definition fixedFields (v : any) : option (string * string * string) :=
  (fun e => (Address e, PingURI e, CACertPath e)) <$> v.

End loadbalancer.

(** ** Package [timer] *)

Module timer.

(** Modelled from the spec: the timer tree of package [timer], of which
    only the tests are among the sources.  Times and durations are integer
    nanoseconds; the clock reading [now] is an argument of every operation
    that reads the clock; an [error] argument that is [nil] is [None], and
    the message recorded for it is empty. *)
Record ServiceCall : Type := mkServiceCall {
  scName : string;
  scEndpointAddress : string;
  scStart : Z;
  scEnd : Z;
  scDuration : Z;
  scError : string
}.

Record Contributor : Type := mkContributor {
  cName : string;
  cStart : Z;
  cEnd : Z;
  cDuration : Z;
  cError : string;
  cServiceCalls : list ServiceCall
}.

Record EndToEndTimer : Type := mkTimer {
  Name : string;
  Tracking : string;
  Start : Z;
  End_ : Z;
  Duration : Z;
  ErrorFree : bool;
  Error : string;
  Contributors : list Contributor
}.

Definition message (err : option error) : string := default "" err.

(** Modelled from the spec: [NewEndToEndTimer(name)] starts the root with
    [Start = now]. *)
Definition NewEndToEndTimer (name tracking : string) (now : Z)
  : EndToEndTimer :=
  mkTimer name tracking now 0 0 false "" [].

(** Modelled from the spec: [T.StartContributor(name)] appends a
    contributor with [Start = now]; the contributor is known afterwards by
    its index. *)
Definition StartContributor (t : EndToEndTimer) (name : string) (now : Z)
  : nat * EndToEndTimer :=
  (length (Contributors t),
   mkTimer (Name t) (Tracking t) (Start t) (End_ t) (Duration t)
           (ErrorFree t) (Error t)
           (Contributors t ++ [mkContributor name now 0 0 "" []])).

Definition endContributor (err : option error) (now : Z) (c : Contributor)
  : Contributor :=
  mkContributor (cName c) (cStart c) now (now - cStart c) (message err)
                (cServiceCalls c).

(** Modelled from the spec: [C.End(err)] on the contributor of index
    [i]. *)
Definition ContributorEnd (t : EndToEndTimer) (i : nat)
    (err : option error) (now : Z) : EndToEndTimer :=
  mkTimer (Name t) (Tracking t) (Start t) (End_ t) (Duration t)
          (ErrorFree t) (Error t)
          (alter (endContributor err now) i (Contributors t)).

(** Modelled from the spec: [T.ContributorErrors()], the contributors with
    a non-empty [Error]. *)
Definition ContributorErrors (t : EndToEndTimer) : list Contributor :=
  filter (fun c => cError c <> "") (Contributors t).

(** Modelled from the spec: [T.Stop(err)] records [End], [Duration] and
    [Error], and [ErrorFree]: no error of its own and none reported by a
    contributor. *)
Definition Stop (t : EndToEndTimer) (err : option error) (now : Z)
  : EndToEndTimer :=
  mkTimer (Name t) (Tracking t) (Start t) now (now - Start t)
          (bool_decide (message err = "")
           && bool_decide (ContributorErrors t = []))
          (message err) (Contributors t).

(** [TestContributors], with the clock read at 0, 1, 2, ... *)
Definition TestContributors : EndToEndTimer :=
  let t0 := NewEndToEndTimer "foo" "" 0 in
  let (c1, t1) := StartContributor t0 "c1" 1 in
  let (c2, t2) := StartContributor t1 "c2" 2 in
  let t3 := ContributorEnd t2 c2 None 3 in
  let t4 := ContributorEnd t3 c1 None 4 in
  Stop t4 None 5.

(** [TestIfContributorErrorsThenTimerErrors] *)
Definition TestIfContributorErrorsThenTimerErrors : EndToEndTimer :=
  let t0 := NewEndToEndTimer "foo" "" 0 in
  let (c1, t1) := StartContributor t0 "c1" 1 in
  let (c2, t2) := StartContributor t1 "c2" 2 in
  let t3 := ContributorEnd t2 c2 (Some "oh whoops") 3 in
  let t4 := ContributorEnd t3 c1 None 4 in
  Stop t4 None 5.


End timer.

(** ** Package [runner] *)

Module runner.

(** Modelled from the spec: the names of the environment variables, constants
    of package [env], which is not among the sources. *)
Definition LoggingLevel : string := "XAVI_LOGGING_LEVEL".
Definition KVStoreURL : string := "XAVI_KVSTORE_URL".
Definition PProfEndpoint : string := "XAVI_PPROF_ENDPOINT".

(** What a run of the process does to the world outside it, in program
    order.  [Exit] and [Fatal] end the process: [log.Fatal] writes its
    message and exits with status 1. *)
Inductive Action : Type :=
| Println (line : string)
| ListenAndServe (endpoint : string)
| RegisterPlugins
| NewKVStore (url : string)
| DoMain (args : list string)
| Exit (code : Z)
| Fatal (message : string).

(** A computation of the process: the actions it performs and its value,
    [None] once the process has exited. *)
Definition Proc (A : Type) : Type := list Action * option A.

Definition pure {A} (a : A) : Proc A := ([], Some a).

Definition act (a : Action) : Proc unit := ([a], Some tt).

(** [os.Exit] and [log.Fatal]: nothing runs after them. *)
Definition stop {A} (a : Action) : Proc A := ([a], None).

Definition andThen {A B} (m : Proc A) (k : A -> Proc B) : Proc B :=
  match m.2 with
  | None => (m.1, None)
  | Some a => (m.1 ++ (k a).1, (k a).2)
  end.

(** [dumpVersionAndExit]: the text to show and whether to exit after
    showing it. *)
Definition dumpVersionAndExit (BuildVersion : string) (args : list string)
  : string * bool :=
  if decide (length args = 2 /\ args !! 1 = Some "-version") then
    let version :=
      if decide (BuildVersion = "") then "<not specified>" else BuildVersion in
    (default "" (args !! 0) +:+ ": build version " +:+ version, true)
  else (BuildVersion, false).

Section Process.
(** [os.Getenv]: the empty string for a variable that is not set. *)
Variable Getenv : string -> string.
(** The handle to the key/value store, and [kvstore.NewKVStore], which
    returns a handle and an error. *)
Variable KVStore : Type.
Variable newKVStore : string -> KVStore * option error.
(** The exit status [shell.DoMain] computes. *)
Variable doMain : list string -> KVStore -> Z.
(** The variable [BuildVersion], set when the program is linked. *)
Variable BuildVersion : string.

Definition getKVStoreEndpoint : Proc string :=
  let endpoint := Getenv KVStoreURL in
  if decide (endpoint = "") then
    stop (Fatal ("Required environment variable " +:+ KVStoreURL
                   +:+ " for configuration KV store must be specified"))
  else pure endpoint.

(** [pluginRegistrationFn] is [true] for a function, [false] for [nil]. *)
Definition setupXAVIEnvironment (pluginRegistrationFn : bool)
  : Proc KVStore :=
  andThen (if pluginRegistrationFn then act RegisterPlugins else pure tt)
    (fun _ =>
  andThen getKVStoreEndpoint (fun endpoint =>
  andThen (act (NewKVStore endpoint)) (fun _ =>
  let (kvs, err) := newKVStore endpoint in
  match err with
  | Some e => stop (Fatal e)
  | None => pure kvs
  end))).

Definition fireUpPProf : Proc bool :=
  let pprofEndpoint := Getenv PProfEndpoint in
  if decide (pprofEndpoint = "") then pure false
  else andThen (act (ListenAndServe pprofEndpoint)) (fun _ => pure true).

(** [Run]: [osArgs] is [os.Args], which the version switch is read from;
    [args] is the argument of [Run], which goes to [shell.DoMain]. *)
Definition Run (osArgs args : list string) (pluginRegistrationFn : bool)
  : Proc Empty_set :=
  let (version, exit) := dumpVersionAndExit BuildVersion osArgs in
  andThen (if exit
           then andThen (act (Println version)) (fun _ => stop (Exit 0))
           else pure tt) (fun _ =>
  andThen fireUpPProf (fun _ =>
  andThen (setupXAVIEnvironment pluginRegistrationFn) (fun kvs =>
  andThen (act (DoMain args)) (fun _ =>
  stop (Exit (doMain args kvs)))))).

End Process.


(** An environment with the key/value store variable set and nothing else,
    and a store that opens. *)
Definition storeOnly (variable : string) : string :=
  if decide (variable = KVStoreURL) then "file:///tmp/xavi" else "".

Definition openStore (url : string) : unit * option error := (tt, None).


End runner.

(** ** Package [service] *)

Module service.

(** Modelled from the spec: the record [ListenerConfig] of package
    [config], declared in a file that is not among the sources. *)
Record ListenerConfig : Type := mkListenerConfig {
  Name : string;
  RouteNames : list string
}.

(** The fields of a managed service that [BuildServiceForListener] writes;
    the type is declared in a file that is not among the sources, and so
    are [newManagedService], [AddRoute], [buildRoute] and
    [config.ReadListenerConfig], which are taken as they come. *)
Record HealthCheckContext : Type := mkHealthCheckContext {
  hcListenerName : string
}.

Section Factory.
Variable KVStore : Type.
(** A pointer to a route, and what a managed service keeps beside the
    fields written here. *)
Variable Route : Type.
Variable Rest : Type.

Record managedService : Type := mkManagedService {
  ListenerName : string;
  HealthCheck : HealthCheckContext;
  Address : string;
  rest : Rest
}.

Variable ReadListenerConfig :
  string -> KVStore -> option ListenerConfig * option error.
Variable buildRoute : string -> KVStore -> Route * option error.
Variable newManagedService : managedService.
Variable AddRoute : managedService -> Route -> managedService.

Definition ErrListenerNotFound (name : string) : error :=
  "Listener config '" +:+ name +:+ "' not found".

Definition readListenerConfig (name : string) (kvs : KVStore)
  : option ListenerConfig * option error :=
  let (lc, err) := ReadListenerConfig name kvs in
  match lc with
  | None => (lc, Some (ErrListenerNotFound name))
  | Some _ => (lc, err)
  end.

(** The loop over the route names: the service or the error it ends with,
    and the names [buildRoute] has been called with, in order.  The second
    test of [err] in the loop body cannot succeed and is left out. *)
Fixpoint addRoutes (routeNames : list string) (kvs : KVStore)
    (ms : managedService)
  : (option managedService * option error) * list string :=
  match routeNames with
  | [] => ((Some ms, None), [])
  | routeName :: routeNames' =>
      let (route, err) := buildRoute routeName kvs in
      match err with
      | Some e => ((None, Some e), [routeName])
      | None =>
          let (res, built) := addRoutes routeNames' kvs (AddRoute ms route) in
          (res, routeName :: built)
      end
  end.

(** The service with the three fields written, before the routes. *)
Definition named (name address : string) : managedService :=
  mkManagedService name (mkHealthCheckContext name) address
                   (rest newManagedService).

(** [BuildServiceForListener]: the pair it returns and the names
    [buildRoute] has been called with.  A [nil] listener configuration
    without an error would be dereferenced; [readListenerConfig] never
    returns that, and the model answers [(nil, nil)] there. *)
Definition BuildServiceForListener (name address : string) (kvs : KVStore)
  : (option managedService * option error) * list string :=
  let (listenerConfig, err) := readListenerConfig name kvs in
  match err with
  | Some e => ((None, Some e), [])
  | None =>
      match listenerConfig with
      | None => ((None, None), [])
      | Some lc => addRoutes (RouteNames lc) kvs (named name address)
      end
  end.

End Factory.

(** *** A configuration to run the factory on *)

(** Listener [l1] has routes [r1], [r2], [bad] and [r3]; [l2] has [r1] and
    [r2]; there is no other listener, and no route [bad]. *)
Definition listeners (name : string) (kvs : unit)
  : option ListenerConfig * option error :=
  if decide (name = "l1")
  then (Some (mkListenerConfig "l1" ["r1"; "r2"; "bad"; "r3"]), None)
  else if decide (name = "l2")
  then (Some (mkListenerConfig "l2" ["r1"; "r2"]), None)
  else (None, None).

Definition routes (routeName : string) (kvs : unit) : string * option error :=
  if decide (routeName = "bad") then ("", Some "Route 'bad' not found")
  else (routeName, None).

Definition emptyService : managedService (list string) :=
  mkManagedService (list string) "" (mkHealthCheckContext "") "" [].

Definition appendRoute (ms : managedService (list string)) (route : string)
  : managedService (list string) :=
  mkManagedService (list string) (ListenerName _ ms) (HealthCheck _ ms)
                   (Address _ ms) (rest _ ms ++ [route]).

End service.

(** * Properties *)

(** ** The ring *)

Section RingFacts.
Context {A : Type}.
Implicit Types r : ring.Ring A.

Lemma Next_slots r : ring.slots (ring.Next r) = ring.slots r.
Proof. unfold ring.Next. by destruct (ring.slots r) eqn:E. Qed.

Lemma Next_Len r : ring.Len (ring.Next r) = ring.Len r.
Proof. unfold ring.Len. by rewrite Next_slots. Qed.

Lemma Next_pos r :
  ring.slots r <> [] ->
  ring.pos (ring.Next r) = S (ring.pos r) mod ring.Len r.
Proof. unfold ring.Next, ring.Len. by destruct (ring.slots r) eqn:E. Qed.

Lemma Next_ok r : ring.ok r -> ring.ok (ring.Next r).
Proof.
  unfold ring.ok, ring.Next. intros [Hlt | [Hnil H0]].
  - destruct (ring.slots r) as [|x l] eqn:E; [simpl in Hlt; lia|].
    left. cbn [ring.pos ring.slots]. by apply Nat.mod_upper_bound.
  - rewrite Hnil. right. by rewrite Hnil.
Qed.

Lemma iter_Next_slots n r : ring.slots (Nat.iter n ring.Next r) = ring.slots r.
Proof.
  induction n as [|n IH]; [done|].
  change (Nat.iter (S n) ring.Next r)
    with (ring.Next (Nat.iter n ring.Next r)).
  by rewrite Next_slots.
Qed.

Lemma Next_iter_Len n r : ring.Len (Nat.iter n ring.Next r) = ring.Len r.
Proof. unfold ring.Len. by rewrite iter_Next_slots. Qed.

Lemma iter_Next_pos n r :
  ring.pos r < ring.Len r ->
  ring.pos (Nat.iter n ring.Next r) = (ring.pos r + n) mod ring.Len r.
Proof.
  intros Hlt. induction n as [|n IH].
  - rewrite Nat.add_0_r. symmetry. by apply Nat.mod_small.
  - change (Nat.iter (S n) ring.Next r)
      with (ring.Next (Nat.iter n ring.Next r)).
    assert (ring.slots (Nat.iter n ring.Next r) <> []) as Hne.
    { rewrite iter_Next_slots. unfold ring.Len in Hlt.
      intros E. rewrite E in Hlt. cbn [length] in Hlt. lia. }
    rewrite (Next_pos _ Hne), IH, Next_iter_Len.
    replace (ring.pos r + S n) with (ring.pos r + n + 1) by lia.
    rewrite <- Nat.add_1_r. apply Nat.Div0.add_mod_idemp_l.
Qed.

(** One full revolution brings the pointer back to the slot it left. *)
Lemma revolution r : ring.ok r -> Nat.iter (ring.Len r) ring.Next r = r.
Proof.
  intros Hok.
  assert (ring.slots (Nat.iter (ring.Len r) ring.Next r) = ring.slots r
          /\ ring.pos (Nat.iter (ring.Len r) ring.Next r) = ring.pos r)
    as [Hs Hp].
  { split; [apply iter_Next_slots|].
    destruct Hok as [Hlt | [Hnil H0]].
    - rewrite iter_Next_pos by done.
      rewrite <- (Nat.mul_1_l (ring.Len r)) at 1.
      rewrite Nat.Div0.mod_add. by apply Nat.mod_small.
    - unfold ring.Len. by rewrite Hnil. }
  destruct r as [sl p], (Nat.iter _ _ _) as [sl' p']. simpl in *.
  by subst.
Qed.

End RingFacts.

(** ** Selection: the loop of [GetConnectAddress] *)

Section Selection.
Import ring loadbalancer.
Implicit Types r : Ring any.

Lemma current_elem r e : current r = Some e -> Some e ∈ slots r.
Proof.
  unfold current, Value. intros H.
  destruct (slots r !! pos r) as [v|] eqn:E; simpl in H; [|done].
  subst v. by eapply list_elem_of_lookup_2.
Qed.

Lemma current_lookup r e :
  current r = Some e -> slots r !! pos r = Some (Some e).
Proof.
  unfold current, Value. intros H.
  destruct (slots r !! pos r) as [v|] eqn:E; simpl in H; [|done].
  by subst v.
Qed.

Lemma findUp_slots n r : slots (findUp n r).2 = slots r.
Proof.
  revert r. induction n as [|n IH]; intros r; [done|].
  cbn [findUp]. destruct (current r) as [e|].
  - destruct (IsUp e); [apply Next_slots|].
    by rewrite IH, Next_slots.
  - by rewrite IH, Next_slots.
Qed.

(** Whatever the loop hands out is the address of an endpoint of the pool
    that is up when it is visited. *)
Lemma findUp_sound n r a :
  (findUp n r).1 = a -> a <> EmptyString ->
  exists e, Some e ∈ slots r /\ Address e = a /\ Up e = true.
Proof.
  revert r. induction n as [|n IH]; intros r; cbn [findUp].
  - intros <-. done.
  - destruct (current r) as [e|] eqn:Ec.
    + destruct (IsUp e) eqn:Eu.
      * intros <- _. exists e. split; [by apply current_elem | done].
      * intros Ha Hne. destruct (IH _ Ha Hne) as (e' & Hin & ? & ?).
        exists e'. by rewrite Next_slots in Hin.
    + intros Ha Hne. destruct (IH _ Ha Hne) as (e' & Hin & ? & ?).
      exists e'. by rewrite Next_slots in Hin.
Qed.

(** With every endpoint down the loop runs all its [n] turns, one [Next]
    each, and finds nothing. *)
Lemma findUp_all_down n r :
  (forall e, Some e ∈ slots r -> Up e = false) ->
  findUp n r = (EmptyString, Nat.iter n Next r).
Proof.
  revert r. induction n as [|n IH]; intros r Hdown; [done|].
  cbn [findUp]. rewrite Nat.iter_succ_r.
  assert (forall e, Some e ∈ slots (Next r) -> Up e = false) as Hdown'.
  { intros e. rewrite Next_slots. apply Hdown. }
  destruct (current r) as [e|] eqn:Ec; [|by apply IH].
  unfold IsUp. rewrite (Hdown e (current_elem _ _ Ec)). by apply IH.
Qed.

Lemma findUp_current_up n r e :
  current r = Some e -> Up e = true ->
  findUp (S n) r = (Address e, Next r).
Proof. intros Hc Hu. cbn [findUp]. unfold IsUp. by rewrite Hc, Hu. Qed.

End Selection.

(** ** Construction: the loop of [NewLoadBalancer] *)

Section Construction.
Import ring loadbalancer.

Lemma connectAddress_nonempty s : connectAddress s <> EmptyString.
Proof. unfold connectAddress. by destruct (config.Address s). Qed.

Lemma newSlots_snoc caCertPath ss s :
  newSlots caCertPath (ss ++ [s])
  = newSlots caCertPath ss ++ [Some (newEndpoint caCertPath s)].
Proof. unfold newSlots. by rewrite fmap_app. Qed.

Lemma newSlots_length caCertPath ss :
  length (newSlots caCertPath ss) = length ss.
Proof. unfold newSlots. by rewrite length_fmap. Qed.

Lemma addServer_step caCertPath (done : list config.ServerConfig) s k :
  addServer caCertPath
    (mkRing (newSlots caCertPath done ++ replicate (S k) None)
            (length done)) s
  = (mkRing (newSlots caCertPath (done ++ [s]) ++ replicate k None)
            (S (length done) mod (length done + S k)),
     serverEvents s).
Proof.
  unfold addServer, bind, emit, ret, SetValue, Next, serverEvents.
  cbn [fst snd pos slots app]. f_equal.
  match goal with
  | |- context [@insert ?K ?V ?M ?I ?i ?v ?l] =>
      assert (@insert K V M I i v l
              = newSlots caCertPath (done ++ [s]) ++ replicate k None) as ->
  end.
  { rewrite newSlots_snoc, <- app_assoc. cbn [app replicate].
    rewrite <- (Nat.add_0_r (length done)) at 1.
    rewrite <- (newSlots_length caCertPath done) at 1.
    by rewrite insert_app_r. }
  destruct (newSlots caCertPath (done ++ [s]) ++ replicate k None)
    as [|x l] eqn:E.
  - apply (f_equal length) in E.
    rewrite length_app, newSlots_length, length_app in E. simpl in E. lia.
  - rewrite <- E.
    rewrite length_app, newSlots_length, length_app, length_replicate.
    cbn [length]. do 2 f_equal. lia.
Qed.

Lemma addServers_fills caCertPath rest :
  forall done : list config.ServerConfig,
  addServers caCertPath
    (mkRing (newSlots caCertPath done ++ replicate (length rest) None)
            (length done mod (length done + length rest)))
    rest
  = (mkRing (newSlots caCertPath (done ++ rest)) 0,
     concat (serverEvents <$> rest)).
Proof.
  induction rest as [|s rest IH]; intros done.
  - cbn [addServers ret length replicate fmap list_fmap concat].
    by rewrite Nat.add_0_r, Nat.Div0.mod_same, !app_nil_r.
  - cbn [addServers length].
    rewrite (Nat.mod_small (length done)) by lia.
    unfold bind at 1. rewrite addServer_step. cbn [fst snd].
    specialize (IH (done ++ [s])).
    rewrite length_app in IH. cbn [length] in IH.
    replace (length done + 1) with (S (length done)) in IH by lia.
    replace (S (length done) + length rest)
      with (length done + S (length rest)) in IH by lia.
    rewrite IH, <- app_assoc. done.
Qed.

Lemma NewLoadBalancer_builds backendName caCertPath
    (ss : list config.ServerConfig) :
  backendName <> EmptyString -> ss <> [] ->
  NewLoadBalancer backendName caCertPath ss
  = ((Some (mkRR backendName (mkRing (newSlots caCertPath ss) 0)), None),
     concat (serverEvents <$> ss)).
Proof.
  intros Hb Hs. unfold NewLoadBalancer.
  destruct (decide (backendName = EmptyString)) as [|_]; [done|].
  destruct (decide (length ss = 0)) as [E|_].
  { by destruct ss. }
  pose proof (addServers_fills caCertPath ss []) as H.
  change (newSlots caCertPath []) with (@nil any) in H.
  cbn [length app] in H. rewrite Nat.Div0.mod_0_l in H.
  unfold New, bind. rewrite H. cbn [fst snd ret].
  by rewrite app_nil_r.
Qed.

Lemma newSlots_Forall2 caCertPath (ss : list config.ServerConfig) :
  Forall2 (fun s v => exists e, v = Some e
                        /\ Address e = connectAddress s
                        /\ PingURI e = config.PingURI s
                        /\ CACertPath e = caCertPath
                        /\ Up e = true)
          ss (newSlots caCertPath ss).
Proof.
  induction ss as [|s ss IH]; constructor; [|done].
  by exists (newEndpoint caCertPath s).
Qed.

Lemma newSlots_lookup caCertPath (pre post : list config.ServerConfig) s :
  newSlots caCertPath (pre ++ s :: post) !! length pre
  = Some (Some (newEndpoint caCertPath s)).
Proof.
  unfold newSlots. rewrite list_lookup_fmap.
  by rewrite list_lookup_middle.
Qed.

End Construction.

(** ** [GetConnectAddress] *)

Section GetConnectAddressFacts.
Import ring loadbalancer.
Implicit Types rr : RoundRobinLoadBalancer.

(** The endpoint under the pointer is up: it is handed out and the pointer
    moves one slot on. *)
Lemma GetConnectAddress_current_up rr e :
  current (servers rr) = Some e -> Up e = true ->
  Address e <> EmptyString ->
  GetConnectAddress rr
  = (((Address e, None), mkRR (backend rr) (Next (servers rr))),
     [MutexLock; MutexUnlock]).
Proof.
  intros Hc Hu Ha. unfold GetConnectAddress.
  assert (exists n, Len (servers rr) = S n) as [n Hn].
  { apply current_lookup, lookup_lt_Some in Hc. unfold Len.
    destruct (length _); [lia | eauto]. }
  rewrite Hn, (findUp_current_up _ _ _ Hc Hu).
  unfold bind, emit, ret. cbn [fst snd].
  by destruct (decide (Address e = EmptyString)).
Qed.

(** [GetConnectAddress] never touches the slots. *)
Lemma GetConnectAddress_slots rr :
  slots (servers (result (GetConnectAddress rr)).2) = slots (servers rr).
Proof.
  unfold GetConnectAddress, bind, emit, ret, result.
  pose proof (findUp_slots (Len (servers rr)) (servers rr)) as H.
  destruct (findUp _ _) as [a r']. cbn [fst snd] in *.
  by destruct (decide (a = EmptyString)).
Qed.

(** An address returned without error is that of an endpoint that was up
    when the loop visited it. *)
Lemma GetConnectAddress_sound rr a rr' :
  result (GetConnectAddress rr) = ((a, None), rr') ->
  exists e, Some e ∈ slots (servers rr) /\ Address e = a /\ Up e = true.
Proof.
  unfold GetConnectAddress, bind, emit, ret, result.
  pose proof (findUp_sound (Len (servers rr)) (servers rr)) as H.
  destruct (findUp _ _) as [a0 r']. cbn [fst snd] in *.
  destruct (decide (a0 = EmptyString)) as [|Hne]; cbn [fst]; [done|].
  intros [= <- _]. by apply H.
Qed.

(** From a pool as [NewLoadBalancer] leaves it, with the pointer on the
    first server of [post], one call for each server of [post] hands out
    their addresses in order and leaves the pointer on the first slot. *)
Lemma calls_in_order b caCertPath post :
  forall pre : list config.ServerConfig,
  calls (replicate (length post) CallGet)
        (mkRR b (mkRing (newSlots caCertPath (pre ++ post))
                        (length pre mod length (pre ++ post))))
  = ((fun s => Connect (connectAddress s) None) <$> post,
     mkRR b (mkRing (newSlots caCertPath (pre ++ post)) 0)).
Proof.
  induction post as [|s post IH]; intros pre.
  - rewrite app_nil_r, Nat.Div0.mod_same. done.
  - cbn [length replicate calls call].
    rewrite (Nat.mod_small (length pre)) by (rewrite length_app; simpl; lia).
    rewrite (GetConnectAddress_current_up _ (newEndpoint caCertPath s)).
    + cbn [result fst snd backend servers].
      assert (Next (mkRing (newSlots caCertPath (pre ++ s :: post))
                           (length pre))
              = mkRing (newSlots caCertPath ((pre ++ [s]) ++ post))
                       (length (pre ++ [s])
                          mod length ((pre ++ [s]) ++ post))) as ->.
      { unfold Next. cbn [slots pos].
        rewrite <- (app_assoc pre [s] post). cbn [app].
        destruct (newSlots _ _) as [|x l] eqn:E.
        - apply (f_equal length) in E.
          rewrite newSlots_length, length_app in E. simpl in E. lia.
        - rewrite <- E, newSlots_length, (length_app pre [s]).
          cbn [length]. do 2 f_equal. lia. }
      rewrite IH, <- (app_assoc pre [s] post). done.
    + unfold current, Value. cbn [servers slots pos].
      by rewrite newSlots_lookup.
    + done.
    + apply connectAddress_nonempty.
Qed.

End GetConnectAddressFacts.

(** ** [MarkEndpointUp] and [MarkEndpointDown] *)

Section MarkFacts.
Import ring loadbalancer.
Implicit Types (r : Ring any) (rr : RoundRobinLoadBalancer).

(** The loop of [changeEndpointStatus] stops at a slot [i] whose endpoint
    has the address sought: it writes the flag of that slot, no other
    slot, and leaves the pointer one slot past it. *)
Lemma findAndSet_found n a st r r' :
  findAndSet n a st r = (true, r') ->
  exists i e,
    slots r !! i = Some (Some e) /\ Address e = a
    /\ slots r' = <[i := Some (setUp e st)]> (slots r)
    /\ pos r' = S i mod Len r.
Proof.
  revert r. induction n as [|n IH]; intros r; cbn [findAndSet]; [done|].
  assert (findAndSet n a st (Next r) = (true, r') ->
            exists i e, slots r !! i = Some (Some e) /\ Address e = a
              /\ slots r' = <[i := Some (setUp e st)]> (slots r)
              /\ pos r' = S i mod Len r) as IH'.
  { intros H0. destruct (IH _ H0) as (i & e & H1 & H2 & H3 & H4).
    rewrite Next_slots in H1, H3. rewrite Next_Len in H4. eauto 10. }
  destruct (current r) as [e|] eqn:Ec; [|done].
  destruct (decide (Address e = a)) as [Ha|_]; [|done].
  intros [= <-]. exists (pos r), e. cbn [slots pos].
  pose proof (current_lookup _ _ Ec) as Hl.
  rewrite Next_slots. repeat split; [done..|].
  apply Next_pos. intros E. by rewrite E in Hl.
Qed.

(** The loop ends without a match: [n] turns, one [Next] each, no slot
    written. *)
Lemma findAndSet_not_found n a st r r' :
  findAndSet n a st r = (false, r') -> r' = Nat.iter n Next r.
Proof.
  revert r. induction n as [|n IH]; intros r; cbn [findAndSet].
  - by intros [= <-].
  - rewrite Nat.iter_succ_r.
    destruct (current r) as [e|]; [|by apply IH].
    destruct (decide (Address e = a)); [done | by apply IH].
Qed.

(** One revolution from a pointer inside the ring visits every slot. *)
Lemma findAndSet_finds n a st r :
  pos r < Len r ->
  (exists k e, k < n
     /\ slots r !! ((pos r + k) mod Len r) = Some (Some e)
     /\ Address e = a) ->
  (findAndSet n a st r).1 = true.
Proof.
  revert r. induction n as [|n IH]; intros r Hlt (k & e & Hk & Hl & Ha);
    [lia|].
  cbn [findAndSet].
  assert (slots r <> []) as Hne.
  { intros E. unfold Len in Hlt. rewrite E in Hlt. simpl in Hlt. lia. }
  assert ((findAndSet n a st (Next r)).1 = true \/ k = 0) as Hrec.
  { destruct k as [|k]; [by right | left].
    apply IH.
    - rewrite Next_pos, Next_Len by done.
      apply Nat.mod_upper_bound. lia.
    - exists k, e. split; [lia|]. split; [|done].
      rewrite Next_slots, Next_pos, Next_Len by done.
      rewrite Nat.Div0.add_mod_idemp_l.
      by replace (S (pos r) + k) with (pos r + S k) by lia. }
  assert (k = 0 -> current r = Some e) as H0.
  { intros ->. rewrite Nat.add_0_r, Nat.mod_small in Hl by done.
    unfold current, Value. by rewrite Hl. }
  destruct (current r) as [e0|] eqn:Ec.
  - destruct (decide (Address e0 = a)) as [|Hn]; [done|].
    destruct Hrec as [|Hk0]; [done|].
    specialize (H0 Hk0). congruence.
  - destruct Hrec as [|Hk0]; [done|]. by specialize (H0 Hk0).
Qed.


Lemma changeEndpointStatus_events rr a st :
  events (changeEndpointStatus rr a st) = [].
Proof.
  unfold changeEndpointStatus.
  destruct (decide (a = EmptyString)); [done|].
  destruct (decide (length (strings.Split a ":") = 2)); [|done].
  destruct (findAndSet _ _ _ _) as [[] r']; done.
Qed.

Lemma MarkEndpointUp_unfold rr a :
  MarkEndpointUp rr a
  = (result (changeEndpointStatus rr a true),
     [SetGauge ["endpoint"%string; a] 1]).
Proof.
  unfold MarkEndpointUp, bind, emit. cbn [fst snd].
  pose proof (changeEndpointStatus_events rr a true) as H.
  destruct (changeEndpointStatus rr a true) as [x t]. simpl in H.
  by subst t.
Qed.

Lemma MarkEndpointDown_unfold rr a :
  MarkEndpointDown rr a
  = (result (changeEndpointStatus rr a false),
     [SetGauge ["endpoint"%string; a] 0]).
Proof.
  unfold MarkEndpointDown, bind, emit. cbn [fst snd].
  pose proof (changeEndpointStatus_events rr a false) as H.
  destruct (changeEndpointStatus rr a false) as [x t]. simpl in H.
  by subst t.
Qed.

(** An argument that fails the test is refused before the pool is looked
    at. *)
Lemma changeEndpointStatus_bad rr a st :
  a = EmptyString \/ length (strings.Split a ":") <> 2 ->
  exists msg,
    changeEndpointStatus rr a st = ((Some msg, rr), [])
    /\ (msg = ErrEmptyAddress \/ msg = ErrAddressForm a).
Proof.
  intros Hbad. unfold changeEndpointStatus.
  destruct (decide (a = EmptyString)); [by eexists; eauto|].
  destruct (decide (length (strings.Split a ":") = 2)); [|by eexists; eauto].
  by destruct Hbad.
Qed.


(** What a successful call has done. *)
Lemma changeEndpointStatus_success rr a st rr' :
  result (changeEndpointStatus rr a st) = (None, rr') ->
  hostPortForm a /\ backend rr' = backend rr
  /\ exists i e,
       slots (servers rr) !! i = Some (Some e) /\ Address e = a
       /\ slots (servers rr') = <[i := Some (setUp e st)]> (slots (servers rr))
       /\ pos (servers rr') = S i mod Len (servers rr).
Proof.
  unfold changeEndpointStatus, result.
  destruct (decide (a = EmptyString)); [done|].
  destruct (decide (length (strings.Split a ":") = 2)); [|done].
  destruct (findAndSet _ _ _ _) as [[] r'] eqn:E; [|done].
  cbn [ret fst]. intros [= <-]. repeat split; [done..|].
  by apply (findAndSet_found _ _ _ _ _ E).
Qed.

(** A failed call has written no slot. *)
Lemma changeEndpointStatus_failure rr a st err rr' :
  result (changeEndpointStatus rr a st) = (Some err, rr') ->
  backend rr' = backend rr /\ slots (servers rr') = slots (servers rr).
Proof.
  unfold changeEndpointStatus, result.
  destruct (decide (a = EmptyString)); [by intros [= _ <-]|].
  destruct (decide (length (strings.Split a ":") = 2));
    [|by intros [= _ <-]].
  destruct (findAndSet _ _ _ _) as [[] r'] eqn:E; [done|].
  cbn [ret fst]. intros [= _ <-]. split; [done|].
  rewrite (findAndSet_not_found _ _ _ _ _ E). apply iter_Next_slots.
Qed.

(** In a ring whose pointer designates one of its slots, an address of
    the pool is found. *)
Lemma changeEndpointStatus_present rr a st :
  ok (servers rr) -> hostPortForm a ->
  (exists e, Some e ∈ slots (servers rr) /\ Address e = a) ->
  exists rr', result (changeEndpointStatus rr a st) = (None, rr').
Proof.
  intros Hok [Hne Hform] (e & Hin & Ha).
  apply list_elem_of_lookup_1 in Hin as [j Hj].
  pose proof (lookup_lt_Some _ _ _ Hj) as Hjlt. fold (Len (servers rr)) in Hjlt.
  assert (pos (servers rr) < Len (servers rr)) as Hlt.
  { destruct Hok as [|[E _]]; [done|].
    unfold Len in Hjlt. rewrite E in Hjlt. simpl in Hjlt. lia. }
  assert ((findAndSet (Len (servers rr)) a st (servers rr)).1 = true) as Hf.
  { apply findAndSet_finds; [done|].
    destruct (decide (pos (servers rr) <= j)) as [Hle|Hgt].
    - exists (j - pos (servers rr)), e. split; [lia|]. split; [|done].
      replace (pos (servers rr) + (j - pos (servers rr))) with j by lia.
      by rewrite Nat.mod_small.
    - exists (j + Len (servers rr) - pos (servers rr)), e.
      split; [lia|]. split; [|done].
      replace (pos (servers rr) + (j + Len (servers rr) - pos (servers rr)))
        with (j + 1 * Len (servers rr)) by lia.
      by rewrite Nat.Div0.mod_add, Nat.mod_small. }
  unfold changeEndpointStatus, result.
  destruct (decide (a = EmptyString)); [done|].
  destruct (decide (length (strings.Split a ":") = 2)); [|done].
  destruct (findAndSet _ _ _ _) as [[] r']; [by eexists | done].
Qed.

End MarkFacts.

(** ** The claims about the round-robin load balancer *)

Section RoundRobinContract.
Import ring loadbalancer.
Implicit Types rr : RoundRobinLoadBalancer.

Lemma pool123_built :
  result (NewLoadBalancer "backend" "" a123) = (Some pool123, None).
Proof. reflexivity. Qed.

Lemma poolTwins_built :
  result (NewLoadBalancer "backend" "" twins) = (Some poolTwins, None).
Proof. reflexivity. Qed.

(** C1, on the code: over servers a:1, a:2, a:3, all up, a successful
    [MarkEndpointDown("a:2")] leaves the ring pointer on a:3, because the
    search of [changeEndpointStatus] advances [rr.servers] itself; the
    next three calls to [GetConnectAddress] return a:3, a:1, a:3 and not
    a:1, a:3, a:1. *)
Theorem mark_down_a2_then_three_calls :
  exists rr1,
    result (MarkEndpointDown pool123 "a:2") = (None, rr1)
    /\ (calls [CallGet; CallGet; CallGet] rr1).1
       = [Connect "a:3" None; Connect "a:1" None; Connect "a:3" None]
    /\ (calls [CallGet; CallGet; CallGet] rr1).1
       <> [Connect "a:1" None; Connect "a:3" None; Connect "a:1" None].
Proof. eexists. split; [reflexivity|]. split; [reflexivity | discriminate]. Qed.

(** C2, on the code: [MarkEndpointDown("a:2")] on the fresh pool a:1,
    a:2, a:3 writes the flag of a:2 only and keeps the slots in place, but
    it moves the ring pointer from slot 0 to slot 2, and it takes the
    mutex at no point. *)
Theorem mark_down_a2_moves_pointer :
  exists rr1,
    result (MarkEndpointDown pool123 "a:2") = (None, rr1)
    /\ slots (servers rr1)
       = <[1 := Some (mkEndpoint "a:2" "/ping" false "")]>
           (slots (servers pool123))
    /\ pos (servers pool123) = 0
    /\ pos (servers rr1) = 2
    /\ events (MarkEndpointDown pool123 "a:2")
       = [SetGauge ["endpoint"%string; "a:2"%string] 0]
    /\ MutexLock ∉ events (MarkEndpointDown pool123 "a:2").
Proof.
  eexists. repeat split; try reflexivity.
  cbv. intros H. inversion H as [|? ? ? H']; inversion H'.
Qed.

(** What a successful mark leaves behind, for every pool: one slot, which
    held an endpoint with the address given, has its flag written; all
    other slots, their number and their order are as before. *)
Lemma mark_writes_one_flag rr a st rr' :
  result (changeEndpointStatus rr a st) = (None, rr') ->
  backend rr' = backend rr
  /\ length (slots (servers rr')) = length (slots (servers rr))
  /\ exists i e,
       slots (servers rr) !! i = Some (Some e) /\ Address e = a
       /\ slots (servers rr') !! i = Some (Some (setUp e st))
       /\ forall j, j <> i ->
            slots (servers rr') !! j = slots (servers rr) !! j.
Proof.
  intros H.
  destruct (changeEndpointStatus_success _ _ _ _ H)
    as (_ & Hb & i & e & Hl & Ha & Hs & _).
  split; [done|]. rewrite Hs. split; [apply length_insert|].
  exists i, e. repeat split; [done..| |].
  - apply list_lookup_insert_eq. by eapply lookup_lt_Some.
  - intros j Hj. by apply list_lookup_insert_ne.
Qed.

(** C3, as stated, fails: built from two servers at the same host and
    port, a fresh load balancer returns the same address twice, so its
    two calls do not return two distinct addresses. *)
Lemma twins_not_distinct :
  result (NewLoadBalancer "backend" "" twins) = (Some poolTwins, None)
  /\ (calls (replicate (length twins) CallGet) poolTwins).1
     = [Connect "a:1" None; Connect "a:1" None]
  /\ ~ NoDup (calls (replicate (length twins) CallGet) poolTwins).1.
Proof.
  split; [reflexivity|]. split; [reflexivity|].
  intros H. apply NoDup_cons in H as [H _]. apply H. by left.
Qed.

(** C3, amended: a load balancer freshly constructed from [k] servers
    returns, on [k] successive calls to [GetConnectAddress] without
    intervening mark calls, the addresses of its [k] endpoints in
    construction order, pairwise distinct whenever the servers' host:port
    addresses are, and call [k+1] returns the first address again. *)
Theorem fresh_pool_round_robin backendName caCertPath
    (ss : list config.ServerConfig) :
  backendName <> EmptyString -> ss <> [] ->
  exists rr first,
    result (NewLoadBalancer backendName caCertPath ss) = (Some rr, None)
    /\ head ss = Some first
    /\ (calls (replicate (length ss) CallGet) rr).1
       = (fun s => Connect (connectAddress s) None) <$> ss
    /\ (calls (replicate (S (length ss)) CallGet) rr).1
       = ((fun s => Connect (connectAddress s) None) <$> ss)
           ++ [Connect (connectAddress first) None]
    /\ (NoDup (connectAddress <$> ss) ->
        NoDup (calls (replicate (length ss) CallGet) rr).1).
Proof.
  intros Hb Hs.
  pose proof (calls_in_order backendName caCertPath ss []) as Hk.
  cbn [app length] in Hk. rewrite Nat.Div0.mod_0_l in Hk.
  destruct ss as [|first ss'] eqn:Ess; [done|]. rewrite <- Ess in *.
  exists (mkRR backendName (mkRing (newSlots caCertPath ss) 0)), first.
  split; [by rewrite NewLoadBalancer_builds|].
  split; [by rewrite Ess|].
  split; [by rewrite Hk|].
  split.
  - assert (forall (cs1 cs2 : list Call) rr,
              (calls (cs1 ++ cs2) rr).1
              = (calls cs1 rr).1 ++ (calls cs2 (calls cs1 rr).2).1) as Happ.
    { induction cs1 as [|c cs1 IH]; intros cs2 rr0; [done|].
      cbn [app calls]. destruct (call c rr0) as [rep rr1].
      specialize (IH cs2 rr1).
      destruct (calls (cs1 ++ cs2) rr1), (calls cs1 rr1).
      cbn [fst snd] in *. by rewrite IH. }
    replace (S (length ss)) with (length ss + 1) by lia.
    rewrite replicate_add, Happ, Hk. cbn [fst snd]. f_equal.
    cbn [calls call replicate].
    rewrite (GetConnectAddress_current_up _ (newEndpoint caCertPath first)).
    + done.
    + by rewrite Ess.
    + done.
    + apply connectAddress_nonempty.
  - intros Hnd. rewrite Hk. cbn [fst].
    assert ((fun s => Connect (connectAddress s) None) <$> ss
            = (fun a => Connect a None) <$> (connectAddress <$> ss)) as ->.
    { by rewrite <- list_fmap_compose. }
    apply NoDup_fmap_2; [|done]. by intros x y [= ->].
Qed.

Lemma fresh_pool_round_robin_witness :
  exists rr first,
    result (NewLoadBalancer "backend" "" a123) = (Some rr, None)
    /\ head a123 = Some first
    /\ (calls (replicate (length a123) CallGet) rr).1
       = (fun s => Connect (connectAddress s) None) <$> a123
    /\ (calls (replicate (S (length a123)) CallGet) rr).1
       = ((fun s => Connect (connectAddress s) None) <$> a123)
           ++ [Connect (connectAddress first) None]
    /\ (NoDup (connectAddress <$> a123) ->
        NoDup (calls (replicate (length a123) CallGet) rr).1).
Proof. apply (fresh_pool_round_robin "backend" "" a123); discriminate. Defined.

(** Scenario S3: all three marked down, the call fails and its error names
    the backend.  Scenario S4: a:2 marked up again, the next call returns
    a:2. *)
Example S3_S4_all_down_then_recovery :
  (calls [CallDown "a:1"; CallDown "a:2"; CallDown "a:3"; CallGet;
          CallUp "a:2"; CallGet] pool123).1
  = [Marked None; Marked None; Marked None;
     Connect "" (Some "All servers in backend backend are marked down"%string);
     Marked None; Connect "a:2" None].
Proof. reflexivity. Qed.

(** Scenario S1: four calls on the fresh pool a:1, a:2, a:3. *)
Example S1_round_robin :
  (calls [CallGet; CallGet; CallGet; CallGet] pool123).1
  = [Connect "a:1" None; Connect "a:2" None; Connect "a:3" None;
     Connect "a:1" None].
Proof. reflexivity. Qed.

(** *** Marked down means not handed out *)

Lemma mark_down_addressDown rr a rr1 :
  addressOnce a rr ->
  result (MarkEndpointDown rr a) = (None, rr1) ->
  addressDown a rr1.
Proof.
  intros Honce. rewrite MarkEndpointDown_unfold. cbn [result fst].
  intros H.
  destruct (changeEndpointStatus_success _ _ _ _ H)
    as (_ & _ & i & e & Hl & Ha & Hs & _).
  intros e' Hin Ha'. apply list_elem_of_lookup_1 in Hin as [j Hj].
  rewrite Hs in Hj. apply list_lookup_insert_Some in Hj
    as [(_ & [= <-] & _) | (Hne & Hj)]; [done|].
  destruct Hne. by eapply Honce.
Qed.

Lemma call_keeps_addressDown a c rr :
  addressDown a rr ->
  (c = CallUp a -> (call c rr).1 <> Marked None) ->
  addressDown a (call c rr).2.
Proof.
  intros Hd Hc. unfold addressDown.
  assert (forall st b err rr',
            (b = a -> st = true -> err <> None) ->
            result (changeEndpointStatus rr b st) = (err, rr') ->
            addressDown a rr') as Hmark.
  { intros st b [msg|] rr' Hb H e Hin Ha.
    - destruct (changeEndpointStatus_failure _ _ _ _ _ H) as [_ Hs].
      rewrite Hs in Hin. by apply Hd.
    - destruct (changeEndpointStatus_success _ _ _ _ H)
        as (_ & _ & i & e0 & Hl & Ha0 & Hs & _).
      apply list_elem_of_lookup_1 in Hin as [j Hj].
      rewrite Hs in Hj. apply list_lookup_insert_Some in Hj
        as [(_ & [= <-] & _) | (_ & Hj)].
      + cbn [setUp Up Address] in *. destruct st; [|done].
        exfalso. subst b. by apply Hb.
      + apply Hd; [|done]. by eapply list_elem_of_lookup_2. }
  destruct c as [|b|b]; cbn [call].
  - pose proof (GetConnectAddress_slots rr) as Hs.
    destruct (result (GetConnectAddress rr)) as [[x err] rr'].
    cbn [snd] in *. intros e. rewrite Hs. apply Hd.
  - rewrite MarkEndpointUp_unfold. cbn [result fst].
    destruct (result (changeEndpointStatus rr b true)) as [err rr'] eqn:E.
    cbn [snd]. apply (Hmark true b err rr'); [|done].
    intros -> _ ->. apply Hc; [done|]. cbn [call].
    rewrite MarkEndpointUp_unfold. cbn [result fst]. by rewrite E.
  - rewrite MarkEndpointDown_unfold. cbn [result fst].
    destruct (result (changeEndpointStatus rr b false)) as [err rr'] eqn:E.
    cbn [snd]. by apply (Hmark false b err rr').
Qed.

Lemma addressDown_not_returned a rr x rr' :
  addressDown a rr ->
  result (GetConnectAddress rr) = ((x, None), rr') -> x <> a.
Proof.
  intros Hd H ->.
  destruct (GetConnectAddress_sound _ _ _ H) as (e & Hin & Ha & Hu).
  by rewrite (Hd e Hin Ha) in Hu.
Qed.

Lemma addressDown_calls a cs : forall rr,
  addressDown a rr ->
  (CallUp a, Marked None) ∉ zip cs (calls cs rr).1 ->
  forall x, Connect x None ∈ (calls cs rr).1 -> x <> a.
Proof.
  induction cs as [|c cs IH]; intros rr Hd Hup x; cbn [calls].
  - intros H. by apply elem_of_nil in H.
  - cbn [calls] in Hup.
    pose proof (call_keeps_addressDown a c rr Hd) as Hkeep.
    destruct (call c rr) as [rep rr1] eqn:Ec. cbn [fst snd] in Hkeep.
    specialize (IH rr1).
    destruct (calls cs rr1) as [reps rr2]. cbn [fst snd zip zip_with] in *.
    rewrite not_elem_of_cons in Hup. destruct Hup as [Hhd Htl].
    intros [Heq | Hin]%elem_of_cons.
    + subst rep. destruct c; cbn [call] in Ec.
      * destruct (result (GetConnectAddress rr)) as [[x' err] rr'] eqn:E.
        injection Ec as -> -> <-.
        by eapply addressDown_not_returned.
      * by destruct (result (MarkEndpointUp rr _)).
      * by destruct (result (MarkEndpointDown rr _)).
    + apply IH; [|done..]. apply Hkeep. intros -> ->. by apply Hhd.
Qed.

(** C4, as stated, fails: in the pool built from two servers at a:1, a
    successful [MarkEndpointDown("a:1")] marks one endpoint only, and the
    next [GetConnectAddress] returns a:1. *)
Lemma twins_marked_down_still_returned :
  exists rr1,
    result (MarkEndpointDown poolTwins "a:1") = (None, rr1)
    /\ (call CallGet rr1).1 = Connect "a:1" None.
Proof. eexists. split; reflexivity. Qed.

(** C4, amended: when [addr] is the address of at most one endpoint of the
    pool, after [MarkEndpointDown(addr)] succeeds no later
    [GetConnectAddress] returns [addr] until a [MarkEndpointUp(addr)]
    succeeds; and, in every pool, an address [GetConnectAddress] returns
    is that of an endpoint whose [Up] flag is true at selection time. *)
Theorem marked_down_not_returned rr addr rr1 cs :
  addressOnce addr rr ->
  result (MarkEndpointDown rr addr) = (None, rr1) ->
  (CallUp addr, Marked None) ∉ zip cs (calls cs rr1).1 ->
  (forall x, Connect x None ∈ (calls cs rr1).1 -> x <> addr)
  /\ (forall rr0 x rr0',
        result (GetConnectAddress rr0) = ((x, None), rr0') ->
        exists e, Some e ∈ slots (servers rr0)
                  /\ Address e = x /\ Up e = true).
Proof.
  intros Honce Hdown Hup. split.
  - eapply addressDown_calls; [|done]. by eapply mark_down_addressDown.
  - apply GetConnectAddress_sound.
Qed.

Lemma pool123_a2_once : addressOnce "a:2" pool123.
Proof.
  intros i j ei ej Hi Hj Hai Haj.
  destruct i as [|[|[|i]]], j as [|[|[|j]]]; try done;
    cbn in Hi, Hj; simplify_eq; done.
Qed.

Lemma marked_down_not_returned_witness :
  (forall x,
     Connect x None
       ∈ (calls [CallGet; CallDown "a:1"; CallGet; CallUp "a:1"; CallGet]
                (result (MarkEndpointDown pool123 "a:2")).2).1 ->
     x <> "a:2"%string)
  /\ (forall rr0 x rr0',
        result (GetConnectAddress rr0) = ((x, None), rr0') ->
        exists e, Some e ∈ slots (servers rr0)
                  /\ Address e = x /\ Up e = true).
Proof.
  apply (marked_down_not_returned pool123 "a:2").
  - apply pool123_a2_once.
  - reflexivity.
  - apply (bool_decide_unpack _). vm_compute. exact I.
Defined.

(** *** All endpoints down *)

(** C5: in a load balancer all of whose endpoints are down,
    [GetConnectAddress] returns no address and the error "All servers in
    backend <name> are marked down" for the backend name of the load
    balancer; it takes and releases the mutex, and has advanced the ring
    pointer by as many slots as the ring has, one full revolution, which
    leaves a well-formed load balancer as it was. *)
Theorem all_down_ErrAllDown rr :
  (forall e, Some e ∈ slots (servers rr) -> Up e = false) ->
  GetConnectAddress rr
  = (((EmptyString,
       Some ("All servers in backend " +:+ backend rr
               +:+ " are marked down")),
      mkRR (backend rr) (Nat.iter (Len (servers rr)) Next (servers rr))),
     [MutexLock; MutexUnlock])
  /\ (ok (servers rr) ->
      (result (GetConnectAddress rr)).2 = rr).
Proof.
  intros Hdown.
  assert (GetConnectAddress rr
          = (((EmptyString, Some (ErrAllDown (backend rr))),
              mkRR (backend rr)
                   (Nat.iter (Len (servers rr)) Next (servers rr))),
             [MutexLock; MutexUnlock])) as H.
  { unfold GetConnectAddress. by rewrite findUp_all_down. }
  split; [done|]. intros Hok. rewrite H. cbn [result fst snd].
  rewrite revolution by done. by destruct rr.
Qed.

Lemma all_down_ErrAllDown_witness :
  GetConnectAddress
    (mkRR "backend"
          (mkRing [Some (mkEndpoint "a:1" "/ping" false "");
                   Some (mkEndpoint "a:2" "/ping" false "")] 1))
  = (((EmptyString, Some "All servers in backend backend are marked down"%string),
      mkRR "backend"
           (mkRing [Some (mkEndpoint "a:1" "/ping" false "");
                    Some (mkEndpoint "a:2" "/ping" false "")] 1)),
     [MutexLock; MutexUnlock]).
Proof.
  refine (proj1 (all_down_ErrAllDown
                   (mkRR "backend"
                      (mkRing [Some (mkEndpoint "a:1" "/ping" false "");
                               Some (mkEndpoint "a:2" "/ping" false "")] 1))
                   _)).
  intros e He. cbn [slots servers] in He. revert He. rewrite !elem_of_cons, elem_of_nil.
  intros [[= ->] | [[= ->] | []]]; reflexivity.
Defined.

(** *** The ring pointer stays inside the ring *)

Lemma findUp_ok n (r : Ring any) : ok r -> ok (findUp n r).2.
Proof.
  revert r. induction n as [|n IH]; intros r Hok; [done|].
  cbn [findUp]. destruct (current r) as [e|].
  - destruct (IsUp e); [by apply Next_ok | by apply IH, Next_ok].
  - by apply IH, Next_ok.
Qed.

Lemma findAndSet_ok n a st (r : Ring any) :
  ok r -> ok (findAndSet n a st r).2.
Proof.
  revert r. induction n as [|n IH]; intros r Hok; [done|].
  cbn [findAndSet]. destruct (current r) as [e|]; [|by apply IH, Next_ok].
  destruct (decide (Address e = a)); [|by apply IH, Next_ok].
  pose proof (Next_ok _ Hok) as [Hlt | [Hnil Hp]]; unfold ok;
    cbn [snd slots pos]; rewrite length_insert; [by left|].
  right. by rewrite Hnil.
Qed.

Lemma call_ok c rr : ok (servers rr) -> ok (servers (call c rr).2).
Proof.
  intros Hok.
  assert (forall a st, ok (servers (result (changeEndpointStatus rr a st)).2))
    as Hmark.
  { intros a st. unfold changeEndpointStatus, result.
    destruct (decide (a = EmptyString)); [done|].
    destruct (decide (length (strings.Split a ":") = 2)); [|done].
    pose proof (findAndSet_ok (Len (servers rr)) a st _ Hok) as H.
    by destruct (findAndSet _ _ _ _) as [[] r']. }
  destruct c as [|a|a]; cbn [call].
  - unfold GetConnectAddress, bind, emit, ret, result.
    pose proof (findUp_ok (Len (servers rr)) _ Hok) as H.
    destruct (findUp _ _) as [x r']. cbn [fst snd] in *.
    by destruct (decide (x = EmptyString)).
  - rewrite MarkEndpointUp_unfold. cbn [result fst].
    specialize (Hmark a true).
    by destruct (result (changeEndpointStatus rr a true)).
  - rewrite MarkEndpointDown_unfold. cbn [result fst].
    specialize (Hmark a false).
    by destruct (result (changeEndpointStatus rr a false)).
Qed.

(** Every load balancer reached from [NewLoadBalancer] by calls of its
    methods has its pointer on one of its slots. *)
Lemma reachable_ok backendName caCertPath ss rr cs :
  result (NewLoadBalancer backendName caCertPath ss) = (Some rr, None) ->
  ok (servers (calls cs rr).2).
Proof.
  intros Hnew.
  assert (ok (servers rr)) as Hok.
  { destruct (decide (backendName = EmptyString)) as [->|Hb]; [done|].
    destruct (decide (ss = [])) as [->|Hs].
    { unfold NewLoadBalancer in Hnew.
      by destruct (decide (backendName = EmptyString)). }
    rewrite NewLoadBalancer_builds in Hnew by done.
    injection Hnew as <-. left. cbn [servers slots pos].
    rewrite newSlots_length. destruct ss; [done | simpl; lia]. }
  clear Hnew. revert rr Hok. induction cs as [|c cs IH]; intros rr Hok;
    [done|].
  cbn [calls]. pose proof (call_ok c rr Hok) as H1.
  destruct (call c rr) as [rep rr1]. specialize (IH rr1 H1).
  by destruct (calls cs rr1).
Qed.

(** *** The contract of the two mark methods *)








(** The three outcomes on the pool a:1, a:2, a:3. *)
Example mark_bad_address :
  (result (MarkEndpointDown pool123 "a2")).1
  = Some "Expected connect address in the form of host:port (a2)"%string
  /\ (result (MarkEndpointUp pool123 "")).1
     = Some "Non-empty connectAddress expected"%string
  /\ (result (MarkEndpointUp pool123 "a:2:3")).1
     = Some "Expected connect address in the form of host:port (a:2:3)"%string.
Proof. repeat split. Qed.

Example mark_not_in_pool :
  (result (MarkEndpointDown pool123 "a:4")).1
  = Some "Address not found in load balancing pool: a:4"%string.
Proof. reflexivity. Qed.

(** *** The contract of the factory *)

Lemma gauge_in_serverEvents (ss : list config.ServerConfig) s :
  s ∈ ss ->
  SetGauge ["endpoint"%string; connectAddress s] 1
    ∈ concat (serverEvents <$> ss).
Proof.
  induction ss as [|s' ss IH]; intros Hin; [by apply elem_of_nil in Hin|].
  cbn [fmap list_fmap concat]. apply elem_of_app.
  apply elem_of_cons in Hin as [-> | Hin]; [left; by left | right; auto].
Qed.

(** C7: [NewLoadBalancer] returns an error, and no load balancer, when
    the backend name or the list of servers is empty; otherwise it returns
    a load balancer and no error, whose ring holds, server by server and
    in their order, one endpoint with the address host:port of the server
    and its [Up] flag true, and it has set the gauge [endpoint.<addr>] to
    one for each of them. *)
Theorem NewLoadBalancer_contract backendName caCertPath
    (ss : list config.ServerConfig) :
  (backendName = EmptyString \/ ss = [] ->
     exists msg,
       NewLoadBalancer backendName caCertPath ss = ((None, Some msg), []))
  /\ (backendName <> EmptyString -> ss <> [] ->
      exists rr,
        result (NewLoadBalancer backendName caCertPath ss) = (Some rr, None)
        /\ backend rr = backendName
        /\ Forall2
             (fun s v =>
                exists e, v = Some e
                  /\ Address e
                     = config.Address s +:+ ":" +:+ fmt.formatInt (config.Port s)
                  /\ PingURI e = config.PingURI s
                  /\ CACertPath e = caCertPath
                  /\ Up e = true)
             ss (slots (servers rr))
        /\ forall s, s ∈ ss ->
             SetGauge ["endpoint"%string; Address (newEndpoint caCertPath s)] 1
               ∈ events (NewLoadBalancer backendName caCertPath ss)).
Proof.
  split.
  - intros Hbad. unfold NewLoadBalancer.
    destruct (decide (backendName = EmptyString)); [by eexists|].
    destruct (decide (length ss = 0)); [by eexists|].
    destruct Hbad as [? | ->]; done.
  - intros Hb Hs. rewrite NewLoadBalancer_builds by done.
    eexists. split; [done|]. split; [done|].
    split; [apply newSlots_Forall2|].
    intros s Hin. by apply gauge_in_serverEvents.
Qed.

Lemma NewLoadBalancer_contract_witness :
  (exists msg, NewLoadBalancer "" "" a123 = ((None, Some msg), []))
  /\ (exists rr,
        result (NewLoadBalancer "backend" "" a123) = (Some rr, None)
        /\ slots (servers rr)
           = [Some (mkEndpoint "a:1" "/ping" true "");
              Some (mkEndpoint "a:2" "/ping" true "");
              Some (mkEndpoint "a:3" "/ping" true "")]
        /\ SetGauge ["endpoint"%string; "a:2"%string] 1
             ∈ events (NewLoadBalancer "backend" "" a123)).
Proof.
  split.
  - apply (proj1 (NewLoadBalancer_contract "" "" a123)). by left.
  - destruct (proj2 (NewLoadBalancer_contract "backend" "" a123))
      as (rr & Hrr & _ & _ & Hg); [discriminate..|].
    exists rr. split; [exact Hrr|]. split.
    + injection Hrr as <-. reflexivity.
    + apply (Hg (server "a" 2)). right. left.
Defined.

(** *** The gauge of the mark methods *)

(** C10: on every load balancer and every string [addr],
    [MarkEndpointUp(addr)] sets the gauge [endpoint.<addr>] to 1.0 and
    [MarkEndpointDown(addr)] sets it to 0.0 before [addr] is looked at:
    that is the one event of the call whatever it returns, also when it
    returns an error, and then no slot of the pool has changed. *)
Theorem mark_sets_gauge_first rr addr :
  events (MarkEndpointUp rr addr) = [SetGauge ["endpoint"%string; addr] 1]
  /\ events (MarkEndpointDown rr addr)
     = [SetGauge ["endpoint"%string; addr] 0]
  /\ (forall err rr',
        result (MarkEndpointUp rr addr) = (Some err, rr')
        \/ result (MarkEndpointDown rr addr) = (Some err, rr') ->
        slots (servers rr') = slots (servers rr)).
Proof.
  rewrite MarkEndpointUp_unfold, MarkEndpointDown_unfold.
  repeat split. cbn [result fst].
  intros err rr' [H | H];
    by destruct (changeEndpointStatus_failure _ _ _ _ _ H).
Qed.

Lemma mark_sets_gauge_first_witness :
  events (MarkEndpointDown pool123 "a2")
  = [SetGauge ["endpoint"%string; "a2"%string] 0]
  /\ slots (servers (result (MarkEndpointDown pool123 "a2")).2)
     = slots (servers pool123).
Proof.
  destruct (mark_sets_gauge_first pool123 "a2") as (_ & Hd & Hs).
  split; [exact Hd|].
  apply (Hs "Expected connect address in the form of host:port (a2)"%string).
  right. reflexivity.
Defined.

End RoundRobinContract.

(** ** The custom health-check registry *)

Section CustomHealthCheck.
Import config.
Context {HealthCheckFn : Type}.
Implicit Types (kvs : KVStore) (registry : gmap string HealthCheckFn).

(** C8: [RegisterHealthCheckForServer] fails with [ErrNoHealthCheckFn]
    whenever the function is [nil], whatever the name; fails with
    [ErrNoSuchServer] when the function is not [nil] and the name is that
    of no server of the configuration; and otherwise succeeds, after which
    [HealthCheckForServer] returns the function registered. *)
Theorem register_health_check_contract kvs name registry :
  (forall name',
     (RegisterHealthCheckForServer HealthCheckFn kvs name' None registry).1
     = Some ErrNoHealthCheckFn)
  /\ (forall fn,
        kvs !! serverKey name = None ->
        (RegisterHealthCheckForServer HealthCheckFn kvs name (Some fn)
           registry).1
        = Some ErrNoSuchServer)
  /\ (forall fn,
        is_Some (kvs !! serverKey name) ->
        exists registry',
          RegisterHealthCheckForServer HealthCheckFn kvs name (Some fn)
            registry
          = (None, registry')
          /\ HealthCheckForServer HealthCheckFn name registry' = Some fn).
Proof.
  unfold RegisterHealthCheckForServer, HealthCheckForServer, serverExists.
  repeat split.
  - intros fn Hnone. rewrite Hnone.
    rewrite bool_decide_eq_false_2; [done|]. by intros [? ?].
  - intros fn Hsome. rewrite bool_decide_eq_true_2 by done.
    eexists. split; [done|]. apply lookup_insert_eq.
Qed.

End CustomHealthCheck.

Lemma register_health_check_contract_witness :
  (config.RegisterHealthCheckForServer (string -> list bool) config.testConfig
     "not a server name" (Some config.simpleHC) ∅).1
  = Some config.ErrNoSuchServer
  /\ exists registry',
      config.RegisterHealthCheckForServer (string -> list bool)
        config.testConfig "server1" (Some config.simpleHC) ∅
      = (None, registry')
      /\ config.HealthCheckForServer (string -> list bool) "server1" registry'
         = Some config.simpleHC.
Proof.
  split.
  - apply (proj1 (proj2 (register_health_check_contract
                           config.testConfig "not a server name" ∅))).
    reflexivity.
  - apply (proj2 (proj2 (register_health_check_contract
                           config.testConfig "server1" ∅))).
    eexists. reflexivity.
Defined.

(** [TestCustomHCNoFunction] *)
Example TestCustomHCNoFunction :
  (config.RegisterHealthCheckForServer (string -> list bool) config.testConfig
     "not a server name" None ∅).1
  = Some config.ErrNoHealthCheckFn.
Proof. reflexivity. Qed.

(** ** The end-to-end timer *)

Section TimerErrors.
Import timer.





(** [TestContributors]: no error, positive durations, [ErrorFree]. *)
Example TestContributors_passes :
  Error TestContributors = EmptyString
  /\ Forall (fun c => (0 < cDuration c)%Z) (Contributors TestContributors)
  /\ ErrorFree TestContributors = true
  /\ ContributorErrors TestContributors = [].
Proof. repeat split. repeat constructor. Qed.

(** [TestIfContributorErrorsThenTimerErrors]: no root error, one
    contributor error, not [ErrorFree]. *)
Example TestIfContributorErrorsThenTimerErrors_passes :
  Error TestIfContributorErrorsThenTimerErrors = EmptyString
  /\ length (ContributorErrors TestIfContributorErrorsThenTimerErrors) = 1
  /\ ErrorFree TestIfContributorErrorsThenTimerErrors = false.
Proof. repeat split. Qed.

End TimerErrors.

(** * Further properties of the load balancer *)

(** ** The order of visit and the two lists of [GetEndpoints] *)

Section EndpointLists.
Import ring loadbalancer.
Implicit Types (r : Ring any) (rr : RoundRobinLoadBalancer) (vs : list any).

Lemma GetEndpoints_lists rr :
  GetEndpoints rr
  = (healthyOf (visited (servers rr)), unhealthyOf (visited (servers rr))).
Proof. reflexivity. Qed.

Lemma healthyOf_app vs1 vs2 :
  healthyOf (vs1 ++ vs2) = healthyOf vs1 ++ healthyOf vs2.
Proof. unfold healthyOf. by rewrite omap_app, filter_app, fmap_app. Qed.

Lemma unhealthyOf_app vs1 vs2 :
  unhealthyOf (vs1 ++ vs2) = unhealthyOf vs1 ++ unhealthyOf vs2.
Proof. unfold unhealthyOf. by rewrite omap_app, filter_app, fmap_app. Qed.

Lemma healthyOf_cons v vs :
  healthyOf (v :: vs)
  = match v with
    | Some e => if Up e then Address e :: healthyOf vs else healthyOf vs
    | None => healthyOf vs
    end.
Proof.
  unfold healthyOf. destruct v as [e|]; [|done].
  change (omap id (Some e :: vs)) with (e :: omap id vs).
  rewrite filter_cons. destruct (Up e); by case_decide.
Qed.

Lemma unhealthyOf_cons v vs :
  unhealthyOf (v :: vs)
  = match v with
    | Some e => if Up e then unhealthyOf vs else Address e :: unhealthyOf vs
    | None => unhealthyOf vs
    end.
Proof.
  unfold unhealthyOf. destruct v as [e|]; [|done].
  change (omap id (Some e :: vs)) with (e :: omap id vs).
  rewrite filter_cons. destruct (Up e); by case_decide.
Qed.

Lemma healthyOf_notUp vs : Forall notUp vs -> healthyOf vs = [].
Proof.
  induction 1 as [|v vs Hv _ IH]; [done|].
  rewrite healthyOf_cons. destruct v as [e|]; [|done].
  simpl in Hv. by rewrite Hv.
Qed.

Lemma healthyOf_nil_notUp vs : healthyOf vs = [] -> Forall notUp vs.
Proof.
  induction vs as [|v vs IH]; [done|].
  rewrite healthyOf_cons. destruct v as [e|].
  - destruct (Up e) eqn:E; [done|]. intros H. constructor; [done | auto].
  - intros H. constructor; [done | auto].
Qed.

(** A non-empty [healthy] list splits the visit at the first up endpoint. *)
Lemma healthyOf_first vs a rest :
  healthyOf vs = a :: rest ->
  exists ds e tl,
    vs = ds ++ Some e :: tl /\ Forall notUp ds
    /\ Up e = true /\ Address e = a /\ healthyOf tl = rest.
Proof.
  induction vs as [|v vs IH]; [done|].
  rewrite healthyOf_cons.
  assert (notUp v -> healthyOf vs = a :: rest ->
          exists ds e tl, v :: vs = ds ++ Some e :: tl /\ Forall notUp ds
            /\ Up e = true /\ Address e = a /\ healthyOf tl = rest) as Hskip.
  { intros Hv H. destruct (IH H) as (ds & e & tl & -> & Hds & ? & ? & ?).
    exists (v :: ds), e, tl. by repeat split; [constructor|..]. }
  destruct v as [e|]; [|by apply Hskip].
  destruct (Up e) eqn:E; [|by apply Hskip].
  intros [= <- <-]. by exists [], e, vs.
Qed.

Lemma visited_cons r v tl :
  ok r -> visited r = v :: tl ->
  current r = v /\ visited (Next r) = tl ++ [v].
Proof.
  unfold visited. intros Hok Hv.
  assert (pos r < length (slots r)) as Hlt.
  { destruct Hok as [|[E _]]; [done|].
    apply (f_equal length) in Hv. by rewrite length_rotate, E in Hv. }
  assert (slots r <> []) as Hne.
  { intros E. rewrite E in Hlt. simpl in Hlt. lia. }
  unfold rotate in Hv. rewrite Nat.mod_small in Hv by done.
  destruct (lookup_lt_is_Some_2 _ _ Hlt) as [x Hx].
  rewrite (drop_S _ _ _ Hx) in Hv. injection Hv as -> <-.
  split.
  { unfold current, Value. by rewrite Hx. }
  rewrite Next_slots, Next_pos by done. unfold Len, rotate.
  rewrite Nat.Div0.mod_mod.
  destruct (decide (S (pos r) < length (slots r))) as [Hs|Hs].
  - rewrite Nat.mod_small by done.
    by rewrite (take_S_r _ _ _ Hx), app_assoc.
  - assert (S (pos r) = length (slots r)) as Heq by lia.
    rewrite Heq, Nat.Div0.mod_same. rewrite <- Heq.
    rewrite (drop_ge _ (S (pos r))) by lia.
    cbn [drop take app]. rewrite app_nil_r.
    rewrite <- (take_drop (pos r) (slots r)) at 1.
    rewrite (drop_S _ _ _ Hx), (drop_ge _ (S (pos r))) by lia. done.
Qed.

Lemma visited_length r : length (visited r) = Len r.
Proof. unfold visited, Len. apply length_rotate. Qed.

Lemma visited_elem r v : v ∈ visited r <-> v ∈ slots r.
Proof. unfold visited. apply elem_of_rotate. Qed.

(** The loop of [GetConnectAddress] passes over the slots that are not up,
    stops at the first endpoint that is, and leaves the pointer on the slot
    after it: the visit now starts there and ends with the endpoint handed
    out. *)
Lemma findUp_visited ds : forall n r e tl,
  ok r -> visited r = ds ++ Some e :: tl ->
  Forall notUp ds -> Up e = true -> length ds < n ->
  exists r',
    findUp n r = (Address e, r') /\ ok r' /\ slots r' = slots r
    /\ visited r' = tl ++ ds ++ [Some e].
Proof.
  induction ds as [|d ds IH]; intros n r e tl Hok Hv Hds Hu Hn;
    (destruct n as [|n]; [simpl in Hn; lia|]).
  - destruct (visited_cons r _ _ Hok Hv) as [Hc Hnext].
    exists (Next r). rewrite (findUp_current_up _ _ _ Hc Hu).
    repeat split; [by apply Next_ok | apply Next_slots | done].
  - cbn [app] in Hv. destruct (visited_cons r _ _ Hok Hv) as [Hc Hnext].
    apply Forall_cons in Hds as [Hd Hds].
    rewrite <- app_assoc in Hnext. cbn [app] in Hnext.
    destruct (IH n (Next r) e (tl ++ [d]) (Next_ok _ Hok) Hnext Hds Hu)
      as (r' & Hf & Hok' & Hs & Hv'); [simpl in Hn; lia|].
    exists r'. cbn [findUp]. rewrite Hc.
    assert (findUp n (Next r) = (Address e, r') ->
            match d with
            | Some lbe => if IsUp lbe then (Address lbe, Next r)
                          else findUp n (Next r)
            | None => findUp n (Next r)
            end = (Address e, r')) as Hskip.
    { destruct d as [e0|]; [|done]. unfold IsUp. simpl in Hd. by rewrite Hd. }
    split; [by apply Hskip|]. split; [done|].
    split; [by rewrite Hs, Next_slots|].
    rewrite Hv', <- !app_assoc. done.
Qed.

(** [GetConnectAddress] hands out the first address of the [healthy] list
    of [GetEndpoints] and moves it to the end of that list. *)
Lemma GetConnectAddress_healthy rr a rest :
  ok (servers rr) ->
  healthyOf (visited (servers rr)) = a :: rest -> a <> EmptyString ->
  exists rr',
    GetConnectAddress rr = (((a, None), rr'), [MutexLock; MutexUnlock])
    /\ ok (servers rr') /\ backend rr' = backend rr
    /\ slots (servers rr') = slots (servers rr)
    /\ healthyOf (visited (servers rr')) = rest ++ [a]
    /\ unhealthyOf (visited (servers rr')) ≡ₚ unhealthyOf (visited (servers rr)).
Proof.
  intros Hok Hh Ha.
  destruct (healthyOf_first _ _ _ Hh) as (ds & e & tl & Hv & Hds & Hu & <- & <-).
  destruct (findUp_visited ds (Len (servers rr)) (servers rr) e tl Hok Hv Hds Hu)
    as (r' & Hf & Hok' & Hs & Hv').
  { rewrite <- visited_length, Hv, length_app. simpl. lia. }
  exists (mkRR (backend rr) r'). unfold GetConnectAddress.
  rewrite Hf. unfold bind, emit, ret. cbn [fst snd backend servers].
  destruct (decide (Address e = EmptyString)); [done|].
  repeat split; [done..| |].
  - rewrite Hv', !healthyOf_app, (healthyOf_notUp ds Hds), healthyOf_cons, Hu.
    done.
  - rewrite Hv', Hv, !unhealthyOf_app, !unhealthyOf_cons, Hu.
    change (unhealthyOf []) with (@nil string).
    rewrite app_nil_r. apply Permutation_app_comm.
Qed.

(** One call for each address of a first part of the [healthy] list hands
    them out in order and moves that part to the end of the list. *)
Lemma calls_healthy h1 : forall h2 rr,
  ok (servers rr) ->
  healthyOf (visited (servers rr)) = h1 ++ h2 -> EmptyString ∉ h1 ->
  exists rr',
    calls (replicate (length h1) CallGet) rr
    = ((fun a => Connect a None) <$> h1, rr')
    /\ ok (servers rr') /\ slots (servers rr') = slots (servers rr)
    /\ healthyOf (visited (servers rr')) = h2 ++ h1
    /\ unhealthyOf (visited (servers rr')) ≡ₚ unhealthyOf (visited (servers rr)).
Proof.
  induction h1 as [|a h1 IH]; intros h2 rr Hok Hh Hne.
  - exists rr. by rewrite app_nil_r.
  - apply not_elem_of_cons in Hne as [Ha Hne]. cbn [app] in Hh.
    destruct (GetConnectAddress_healthy rr a (h1 ++ h2) Hok Hh)
      as (rr1 & Hg & Hok1 & _ & Hs1 & Hh1 & Hu1); [done|].
    rewrite <- app_assoc in Hh1.
    destruct (IH (h2 ++ [a]) rr1 Hok1 Hh1 Hne)
      as (rr2 & Hc & Hok2 & Hs2 & Hh2 & Hu2).
    exists rr2. cbn [length replicate calls call]. rewrite Hg.
    cbn [result fst snd]. rewrite Hc. cbn [fmap list_fmap].
    repeat split; [done | congruence | | by etrans].
    rewrite Hh2, <- app_assoc. done.
Qed.

End EndpointLists.

(** ** [GetEndpoints] and [GetConnectAddress] *)

Section HealthyEndpoints.
Import ring loadbalancer.
Implicit Types (r : Ring any) (rr : RoundRobinLoadBalancer).

Lemma healthyOf_elem (vs : list any) a :
  a ∈ healthyOf vs
  <-> exists e, Some e ∈ vs /\ Address e = a /\ Up e = true.
Proof.
  unfold healthyOf. rewrite list_elem_of_fmap. split.
  - intros (e & -> & [Hu Hin]%list_elem_of_filter).
    apply list_elem_of_omap in Hin as (v & Hv & Hid). simpl in Hid. subst v.
    by exists e.
  - intros (e & Hin & <- & Hu). exists e. split; [done|].
    apply list_elem_of_filter. split; [done|].
    apply list_elem_of_omap. by exists (Some e).
Qed.

Lemma unhealthyOf_elem (vs : list any) a :
  a ∈ unhealthyOf vs
  <-> exists e, Some e ∈ vs /\ Address e = a /\ Up e = false.
Proof.
  unfold unhealthyOf. rewrite list_elem_of_fmap. split.
  - intros (e & -> & [Hu Hin]%list_elem_of_filter).
    apply list_elem_of_omap in Hin as (v & Hv & Hid). simpl in Hid. subst v.
    by exists e.
  - intros (e & Hin & <- & Hu). exists e. split; [done|].
    apply list_elem_of_filter. split; [done|].
    apply list_elem_of_omap. by exists (Some e).
Qed.

Lemma healthy_unhealthy_all (vs : list any) :
  healthyOf vs ++ unhealthyOf vs ≡ₚ Address <$> omap id vs.
Proof.
  induction vs as [|v vs IH]; [done|].
  rewrite healthyOf_cons, unhealthyOf_cons. destruct v as [e|]; [|done].
  change (omap id (Some e :: vs)) with (e :: omap id vs).
  cbn [fmap list_fmap]. destruct (Up e).
  - cbn [app]. by constructor.
  - rewrite <- Permutation_middle. by constructor.
Qed.

(** X1: [GetEndpoints] lists every endpoint of the pool once: its two lists
    together are a rearrangement of the addresses of all endpoints, the
    first holding those of the endpoints that are up and the second those of
    the endpoints that are down. *)
Theorem GetEndpoints_partition rr :
  (GetEndpoints rr).1 ++ (GetEndpoints rr).2
    ≡ₚ Address <$> omap id (slots (servers rr))
  /\ (forall a, a ∈ (GetEndpoints rr).1
                <-> exists e, Some e ∈ slots (servers rr)
                             /\ Address e = a /\ Up e = true)
  /\ (forall a, a ∈ (GetEndpoints rr).2
                <-> exists e, Some e ∈ slots (servers rr)
                             /\ Address e = a /\ Up e = false).
Proof.
  rewrite GetEndpoints_lists. cbn [fst snd]. split; [|split].
  - rewrite healthy_unhealthy_all. unfold visited, rotate.
    rewrite omap_app, fmap_app, Permutation_app_comm, <- fmap_app, <- omap_app.
    by rewrite take_drop.
  - intros a. rewrite healthyOf_elem.
    by setoid_rewrite visited_elem.
  - intros a. rewrite unhealthyOf_elem.
    by setoid_rewrite visited_elem.
Qed.

Lemma healthyOf_newSlots caCertPath (ss : list config.ServerConfig) :
  healthyOf (newSlots caCertPath ss) = connectAddress <$> ss
  /\ unhealthyOf (newSlots caCertPath ss) = [].
Proof.
  induction ss as [|s ss [IH1 IH2]]; [done|].
  change (newSlots caCertPath (s :: ss))
    with (Some (newEndpoint caCertPath s) :: newSlots caCertPath ss).
  rewrite healthyOf_cons, unhealthyOf_cons. cbn [newEndpoint Up Address].
  by rewrite IH1, IH2.
Qed.

(** X2: on a load balancer fresh from [NewLoadBalancer], [GetEndpoints]
    reports every server's host:port as healthy, in the order of the
    servers, and nothing as unhealthy. *)
Theorem GetEndpoints_fresh backendName caCertPath
    (ss : list config.ServerConfig) :
  backendName <> EmptyString -> ss <> [] ->
  exists rr,
    result (NewLoadBalancer backendName caCertPath ss) = (Some rr, None)
    /\ GetEndpoints rr = (connectAddress <$> ss, []).
Proof.
  intros Hb Hs. rewrite NewLoadBalancer_builds by done.
  eexists. split; [done|]. rewrite GetEndpoints_lists.
  unfold visited, rotate. cbn [servers slots pos].
  rewrite Nat.Div0.mod_0_l. cbn [take]. rewrite app_nil_r, drop_0.
  by destruct (healthyOf_newSlots caCertPath ss) as [-> ->].
Qed.

Lemma GetEndpoints_fresh_witness :
  exists rr,
    result (NewLoadBalancer "backend" "" a123) = (Some rr, None)
    /\ GetEndpoints rr = (["a:1"; "a:2"; "a:3"]%string, []).
Proof. apply (GetEndpoints_fresh "backend" "" a123); discriminate. Defined.

(** X3: [GetConnectAddress] returns the first address of the healthy list
    that [GetEndpoints] reports, and afterwards [GetEndpoints] reports that
    address last among the healthy ones, the others moved up by one; the
    unhealthy addresses are the same. *)
Theorem GetConnectAddress_first_healthy rr a rest :
  ok (servers rr) ->
  (GetEndpoints rr).1 = a :: rest -> a <> EmptyString ->
  exists rr',
    result (GetConnectAddress rr) = ((a, None), rr')
    /\ (GetEndpoints rr').1 = rest ++ [a]
    /\ (GetEndpoints rr').2 ≡ₚ (GetEndpoints rr).2.
Proof.
  rewrite GetEndpoints_lists. cbn [fst snd]. intros Hok Hh Ha.
  destruct (GetConnectAddress_healthy rr a rest Hok Hh Ha)
    as (rr' & Hg & _ & _ & _ & Hh' & Hu').
  exists rr'. rewrite Hg, GetEndpoints_lists. done.
Qed.

Lemma pool123A2Down_ok : ok (servers pool123A2Down).
Proof. left. vm_compute. lia. Qed.

Lemma GetConnectAddress_first_healthy_witness :
  exists rr',
    result (GetConnectAddress pool123A2Down) = (("a:3"%string, None), rr')
    /\ (GetEndpoints rr').1 = ["a:1"; "a:3"]%string
    /\ (GetEndpoints rr').2 ≡ₚ (GetEndpoints pool123A2Down).2.
Proof.
  apply (GetConnectAddress_first_healthy pool123A2Down "a:3" ["a:1"%string]).
  - apply pool123A2Down_ok.
  - reflexivity.
  - discriminate.
Defined.

(** X4: as many successive calls to [GetConnectAddress] as [GetEndpoints]
    reports healthy addresses return exactly those addresses, each once, in
    the order reported, whatever endpoints are down in between them; after
    them [GetEndpoints] reports the same healthy list again. *)
Theorem healthy_endpoints_in_turn rr :
  ok (servers rr) ->
  EmptyString ∉ (GetEndpoints rr).1 ->
  exists rr',
    calls (replicate (length (GetEndpoints rr).1) CallGet) rr
    = ((fun a => Connect a None) <$> (GetEndpoints rr).1, rr')
    /\ (GetEndpoints rr').1 = (GetEndpoints rr).1
    /\ slots (servers rr') = slots (servers rr).
Proof.
  rewrite GetEndpoints_lists. cbn [fst snd]. intros Hok Hne.
  destruct (calls_healthy (healthyOf (visited (servers rr))) [] rr Hok)
    as (rr' & Hc & _ & Hs & Hh & _); [by rewrite app_nil_r | done |].
  exists rr'. by rewrite Hc, GetEndpoints_lists.
Qed.

Lemma healthy_endpoints_in_turn_witness :
  exists rr',
    calls [CallGet; CallGet] pool123A2Down
    = ([Connect "a:3" None; Connect "a:1" None], rr')
    /\ (GetEndpoints rr').1 = ["a:3"; "a:1"]%string
    /\ slots (servers rr') = slots (servers pool123A2Down).
Proof.
  apply (healthy_endpoints_in_turn pool123A2Down).
  - apply pool123A2Down_ok.
  - apply (bool_decide_unpack _). vm_compute. exact I.
Defined.

(** X5: in a pool whose endpoints all have an address, [GetConnectAddress]
    fails exactly when [GetEndpoints] reports no healthy endpoint, and then
    it fails with the all-down error of the backend and leaves the load
    balancer, ring pointer included, as it was. *)
Theorem error_iff_no_healthy rr :
  ok (servers rr) ->
  (forall e, Some e ∈ slots (servers rr) -> Address e <> EmptyString) ->
  ((GetEndpoints rr).1 = []
   <-> (result (GetConnectAddress rr)).1.2 <> None)
  /\ ((GetEndpoints rr).1 = [] ->
      result (GetConnectAddress rr)
      = ((EmptyString, Some (ErrAllDown (backend rr))), rr)).
Proof.
  rewrite GetEndpoints_lists. cbn [fst snd]. intros Hok Haddr.
  assert (healthyOf (visited (servers rr)) = [] ->
          result (GetConnectAddress rr)
          = ((EmptyString, Some (ErrAllDown (backend rr))), rr)) as Hnil.
  { intros Hh. apply healthyOf_nil_notUp in Hh.
    rewrite Forall_forall in Hh. unfold GetConnectAddress.
    rewrite findUp_all_down.
    - unfold bind, emit, ret, result. cbn [fst snd].
      rewrite revolution by done. by destruct rr.
    - intros e He. by apply (Hh (Some e)), visited_elem. }
  split; [|done]. split.
  - intros Hh. by rewrite (Hnil Hh).
  - destruct (healthyOf (visited (servers rr))) as [|a rest] eqn:Hh; [done|].
    intros Herr. exfalso. apply Herr.
    assert (a <> EmptyString) as Ha.
    { assert (a ∈ healthyOf (visited (servers rr))) as Hin
        by (rewrite Hh; by left).
      apply healthyOf_elem in Hin as (e & Hin & <- & _).
      by apply Haddr, visited_elem. }
    destruct (GetConnectAddress_healthy rr a rest Hok Hh Ha)
      as (rr' & Hg & _).
    by rewrite Hg.
Qed.

Lemma error_iff_no_healthy_witness :
  ((GetEndpoints pool123A2Down).1 = []
   <-> (result (GetConnectAddress pool123A2Down)).1.2 <> None)
  /\ ((GetEndpoints pool123A2Down).1 = [] ->
      result (GetConnectAddress pool123A2Down)
      = ((EmptyString, Some (ErrAllDown (backend pool123A2Down))),
         pool123A2Down)).
Proof.
  apply (error_iff_no_healthy pool123A2Down).
  - apply pool123A2Down_ok.
  - intros e He.
    change (slots (servers pool123A2Down))
      with [Some (mkEndpoint "a:1" "/ping" true "");
            Some (mkEndpoint "a:2" "/ping" false "");
            Some (mkEndpoint "a:3" "/ping" true "")] in He.
    revert He. rewrite !elem_of_cons, elem_of_nil.
    intros [[= ->] | [[= ->] | [[= ->] | []]]]; discriminate.
Defined.

(** X6: on a load balancer whose ring pointer designates one of its slots,
    when [GetEndpoints] reports exactly one healthy address and that address
    is not the empty string, every call to [GetConnectAddress] returns that
    address without error, however many calls are made. *)
Theorem one_healthy_always_returned rr a n :
  ok (servers rr) ->
  (GetEndpoints rr).1 = [a] -> a <> EmptyString ->
  (calls (replicate n CallGet) rr).1 = replicate n (Connect a None).
Proof.
  rewrite GetEndpoints_lists. cbn [fst snd]. intros Hok Hh Ha.
  revert rr Hok Hh. induction n as [|n IH]; intros rr Hok Hh; [done|].
  destruct (GetConnectAddress_healthy rr a [] Hok Hh Ha)
    as (rr' & Hg & Hok' & _ & _ & Hh' & _).
  cbn [replicate calls call]. rewrite Hg. cbn [result fst snd].
  specialize (IH rr' Hok' Hh').
  destruct (calls (replicate n CallGet) rr') as [reps rr'']. cbn [fst] in *.
  by rewrite IH.
Qed.

Lemma one_healthy_always_returned_witness :
  (calls (replicate 5 CallGet)
         (result (MarkEndpointDown pool123A2Down "a:1")).2).1
  = replicate 5 (Connect "a:3" None).
Proof.
  apply (one_healthy_always_returned _ "a:3" 5).
  - left. vm_compute. lia.
  - reflexivity.
  - discriminate.
Defined.

End HealthyEndpoints.

(** ** Marks: what [GetEndpoints] reports, repeated and opposite marks,
    failed marks *)

Section MarkSequences.
Import ring loadbalancer.
Implicit Types (r : Ring any) (rr : RoundRobinLoadBalancer).

(** After a successful mark of an address held by one endpoint at most,
    every endpoint with that address has the flag given. *)
Lemma mark_once_all rr a st rr' :
  addressOnce a rr ->
  result (changeEndpointStatus rr a st) = (None, rr') ->
  forall e, Some e ∈ slots (servers rr') -> Address e = a -> Up e = st.
Proof.
  intros Honce H.
  destruct (changeEndpointStatus_success _ _ _ _ H)
    as (_ & _ & i & e & Hl & Ha & Hs & _).
  intros e' Hin Ha'. apply list_elem_of_lookup_1 in Hin as [j Hj].
  rewrite Hs in Hj. apply list_lookup_insert_Some in Hj
    as [(_ & [= <-] & _) | (Hne & Hj)]; [done|].
  destruct Hne. by eapply Honce.
Qed.

Lemma mark_written_elem rr a st rr' :
  result (changeEndpointStatus rr a st) = (None, rr') ->
  exists e, Some e ∈ slots (servers rr') /\ Address e = a /\ Up e = st.
Proof.
  intros H.
  destruct (changeEndpointStatus_success _ _ _ _ H)
    as (_ & _ & i & e & Hl & Ha & Hs & _).
  exists (setUp e st). split; [|done]. rewrite Hs.
  apply list_elem_of_insert. by eapply lookup_lt_Some.
Qed.

(** X7: after a successful [MarkEndpointDown(addr)], [GetEndpoints] lists
    [addr] as unhealthy, and after a successful [MarkEndpointUp(addr)] as
    healthy; when [addr] is the address of one endpoint only, it is then
    absent from the other list. *)
Theorem marked_address_reported rr addr rr' :
  (result (MarkEndpointDown rr addr) = (None, rr') ->
     addr ∈ (GetEndpoints rr').2
     /\ (addressOnce addr rr -> addr ∉ (GetEndpoints rr').1))
  /\ (result (MarkEndpointUp rr addr) = (None, rr') ->
       addr ∈ (GetEndpoints rr').1
       /\ (addressOnce addr rr -> addr ∉ (GetEndpoints rr').2)).
Proof.
  rewrite MarkEndpointDown_unfold, MarkEndpointUp_unfold.
  rewrite GetEndpoints_lists. cbn [result fst snd].
  split; intros H; (split; [|intros Honce Hin]).
  - apply unhealthyOf_elem.
    destruct (mark_written_elem _ _ _ _ H) as (e & Hin & Ha & Hu).
    exists e. by rewrite visited_elem.
  - apply healthyOf_elem in Hin as (e & Hin & Ha & Hu).
    apply visited_elem in Hin.
    by rewrite (mark_once_all _ _ _ _ Honce H e Hin Ha) in Hu.
  - apply healthyOf_elem.
    destruct (mark_written_elem _ _ _ _ H) as (e & Hin & Ha & Hu).
    exists e. by rewrite visited_elem.
  - apply unhealthyOf_elem in Hin as (e & Hin & Ha & Hu).
    apply visited_elem in Hin.
    by rewrite (mark_once_all _ _ _ _ Honce H e Hin Ha) in Hu.
Qed.

Lemma marked_address_reported_witness :
  "a:2"%string ∈ (GetEndpoints pool123A2Down).2
  /\ "a:2"%string ∉ (GetEndpoints pool123A2Down).1.
Proof.
  destruct (proj1 (marked_address_reported pool123 "a:2" pool123A2Down))
    as [Hin Hout]; [reflexivity|].
  split; [exact Hin|]. apply Hout.
  intros i j ei ej Hi Hj Hai Haj.
  destruct i as [|[|[|i]]], j as [|[|[|j]]]; try reflexivity;
    cbn in Hi, Hj; simplify_eq; discriminate.
Defined.

Lemma changeEndpointStatus_ok rr a st :
  ok (servers rr) -> ok (servers (result (changeEndpointStatus rr a st)).2).
Proof.
  intros Hok. unfold changeEndpointStatus, result.
  destruct (decide (a = EmptyString)); [done|].
  destruct (decide (length (strings.Split a ":") = 2)); [|done].
  pose proof (findAndSet_ok (Len (servers rr)) a st _ Hok) as H.
  by destruct (findAndSet _ _ _ _) as [[] r'].
Qed.

(** A second mark of the same address, held by one endpoint at most, finds
    the slot the first one wrote. *)
Lemma mark_twice rr a st1 st2 rr1 :
  ok (servers rr) -> addressOnce a rr ->
  result (changeEndpointStatus rr a st1) = (None, rr1) ->
  exists rr2 i e,
    slots (servers rr) !! i = Some (Some e) /\ Address e = a
    /\ result (changeEndpointStatus rr1 a st2) = (None, rr2)
    /\ slots (servers rr1) = <[i := Some (setUp e st1)]> (slots (servers rr))
    /\ slots (servers rr2) = <[i := Some (setUp e st2)]> (slots (servers rr)).
Proof.
  intros Hok Honce H1.
  destruct (changeEndpointStatus_success _ _ _ _ H1)
    as (Hform & _ & i & e & Hl & Ha & Hs1 & _).
  pose proof (lookup_lt_Some _ _ _ Hl) as Hi.
  assert (ok (servers rr1)) as Hok1.
  { pose proof (changeEndpointStatus_ok rr a st1 Hok) as H.
    by rewrite H1 in H. }
  destruct (changeEndpointStatus_present rr1 a st2 Hok1 Hform) as [rr2 H2].
  { destruct (mark_written_elem _ _ _ _ H1) as (e1 & ? & ? & _). eauto. }
  destruct (changeEndpointStatus_success _ _ _ _ H2)
    as (_ & _ & j & e' & Hl' & Ha' & Hs2 & _).
  exists rr2, i, e. repeat split; [done..|].
  rewrite Hs1 in Hl'. apply list_lookup_insert_Some in Hl'
    as [(<- & [= <-] & _) | (Hne & Hj)].
  - rewrite Hs2, Hs1, list_insert_insert_eq. done.
  - destruct Hne. by eapply Honce.
Qed.

(** X8: marking down and then up again an address held by one endpoint,
    which was up, gives back the pool as it was: the second call succeeds
    and every slot holds what it held before the two calls. *)
Theorem mark_down_then_up_restores rr addr rr1 :
  ok (servers rr) -> addressOnce addr rr ->
  (forall e, Some e ∈ slots (servers rr) -> Address e = addr -> Up e = true) ->
  result (MarkEndpointDown rr addr) = (None, rr1) ->
  exists rr2,
    result (MarkEndpointUp rr1 addr) = (None, rr2)
    /\ slots (servers rr2) = slots (servers rr)
    /\ backend rr2 = backend rr.
Proof.
  rewrite MarkEndpointDown_unfold. cbn [result fst]. intros Hok Honce Hup H1.
  destruct (mark_twice rr addr false true rr1 Hok Honce H1)
    as (rr2 & i & e & Hl & Ha & H2 & Hs1 & Hs2).
  exists rr2. rewrite MarkEndpointUp_unfold. cbn [result fst].
  split; [done|]. split.
  - rewrite Hs2. apply list_insert_id. rewrite Hl. do 2 f_equal.
    pose proof (Hup e (list_elem_of_lookup_2 _ _ _ Hl) Ha) as Hu.
    destruct e. simpl in Hu. by subst.
  - destruct (changeEndpointStatus_success _ _ _ _ H2) as (_ & -> & _).
    by destruct (changeEndpointStatus_success _ _ _ _ H1) as (_ & -> & _).
Qed.

Lemma pool123_once a : addressOnce a pool123.
Proof.
  intros i j ei ej Hi Hj Hai Haj.
  destruct i as [|[|[|i]]], j as [|[|[|j]]]; try reflexivity;
    cbn in Hi, Hj; simplify_eq; discriminate.
Qed.

Lemma pool123_ok : ok (servers pool123).
Proof. left. vm_compute. lia. Qed.

Lemma pool123_all_up e :
  Some e ∈ slots (servers pool123) -> Up e = true.
Proof.
  change (slots (servers pool123))
    with [Some (mkEndpoint "a:1" "/ping" true "");
          Some (mkEndpoint "a:2" "/ping" true "");
          Some (mkEndpoint "a:3" "/ping" true "")].
  rewrite !elem_of_cons, elem_of_nil.
  intros [[= ->] | [[= ->] | [[= ->] | []]]]; reflexivity.
Qed.

Lemma mark_down_then_up_restores_witness :
  exists rr2,
    result (MarkEndpointUp pool123A2Down "a:2") = (None, rr2)
    /\ slots (servers rr2) = slots (servers pool123)
    /\ backend rr2 = backend pool123.
Proof.
  apply (mark_down_then_up_restores pool123 "a:2" pool123A2Down).
  - apply pool123_ok.
  - apply pool123_once.
  - intros e He _. by apply pool123_all_up.
  - reflexivity.
Defined.

(** X9: repeating a successful mark of an address held by one endpoint
    changes no flag: the second [MarkEndpointDown], or [MarkEndpointUp],
    succeeds as well and leaves every slot as the first call left it. *)
Theorem repeated_mark_changes_nothing rr addr rr1 :
  ok (servers rr) -> addressOnce addr rr ->
  (result (MarkEndpointDown rr addr) = (None, rr1) ->
     exists rr2, result (MarkEndpointDown rr1 addr) = (None, rr2)
                 /\ slots (servers rr2) = slots (servers rr1))
  /\ (result (MarkEndpointUp rr addr) = (None, rr1) ->
       exists rr2, result (MarkEndpointUp rr1 addr) = (None, rr2)
                   /\ slots (servers rr2) = slots (servers rr1)).
Proof.
  intros Hok Honce.
  rewrite !MarkEndpointDown_unfold, !MarkEndpointUp_unfold.
  cbn [result fst].
  split; intros H1.
  - destruct (mark_twice rr addr false false rr1 Hok Honce H1)
      as (rr2 & i & e & _ & _ & H2 & Hs1 & Hs2).
    exists rr2. split; [done | congruence].
  - destruct (mark_twice rr addr true true rr1 Hok Honce H1)
      as (rr2 & i & e & _ & _ & H2 & Hs1 & Hs2).
    exists rr2. split; [done | congruence].
Qed.

Lemma repeated_mark_changes_nothing_witness :
  exists rr2,
    result (MarkEndpointDown pool123A2Down "a:2") = (None, rr2)
    /\ slots (servers rr2) = slots (servers pool123A2Down).
Proof.
  apply (proj1 (repeated_mark_changes_nothing pool123 "a:2" pool123A2Down
                  pool123_ok (pool123_once "a:2"))).
  reflexivity.
Defined.

(** A failed mark has gone once around the ring, or not looked at it. *)
Lemma changeEndpointStatus_failure_same rr a st err rr' :
  ok (servers rr) ->
  result (changeEndpointStatus rr a st) = (Some err, rr') -> rr' = rr.
Proof.
  intros Hok. unfold changeEndpointStatus, result.
  destruct (decide (a = EmptyString)); [by intros [= _ <-]|].
  destruct (decide (length (strings.Split a ":") = 2));
    [|by intros [= _ <-]].
  destruct (findAndSet _ _ _ _) as [[] r'] eqn:E; [done|].
  cbn [ret fst]. intros [= _ <-].
  rewrite (findAndSet_not_found _ _ _ _ _ E), revolution by done.
  by destruct rr.
Qed.

(** X10: a call to [MarkEndpointUp] or [MarkEndpointDown] that returns an
    error leaves the load balancer exactly as it was, the ring pointer
    included: the search that finds nothing has gone once around the
    ring. *)
Theorem failed_mark_changes_nothing rr addr err rr' :
  ok (servers rr) ->
  result (MarkEndpointUp rr addr) = (Some err, rr')
  \/ result (MarkEndpointDown rr addr) = (Some err, rr') ->
  rr' = rr.
Proof.
  rewrite MarkEndpointUp_unfold, MarkEndpointDown_unfold. cbn [result fst].
  intros Hok [H | H]; by eapply changeEndpointStatus_failure_same.
Qed.

Lemma failed_mark_changes_nothing_witness :
  (result (MarkEndpointDown pool123A2Down "a:4")).2 = pool123A2Down.
Proof.
  apply (failed_mark_changes_nothing pool123A2Down "a:4"
           "Address not found in load balancing pool: a:4").
  - apply pool123A2Down_ok.
  - right. reflexivity.
Defined.

Lemma fixedFields_setUp e st :
  fixedFields (Some (setUp e st)) = fixedFields (Some e).
Proof. done. Qed.

Lemma call_keeps_pool c rr :
  backend (call c rr).2 = backend rr
  /\ fixedFields <$> slots (servers (call c rr).2)
     = fixedFields <$> slots (servers rr).
Proof.
  assert (forall a st,
            backend (result (changeEndpointStatus rr a st)).2 = backend rr
            /\ fixedFields <$> slots (servers (result (changeEndpointStatus rr a st)).2)
               = fixedFields <$> slots (servers rr)) as Hmark.
  { intros a st.
    destruct (result (changeEndpointStatus rr a st)) as [[err|] rr'] eqn:E.
    - destruct (changeEndpointStatus_failure _ _ _ _ _ E) as [Hb Hs].
      cbn [snd]. by rewrite Hb, Hs.
    - destruct (changeEndpointStatus_success _ _ _ _ E)
        as (_ & Hb & i & e & Hl & _ & Hs & _).
      cbn [snd]. split; [done|].
      rewrite Hs, list_fmap_insert, fixedFields_setUp.
      apply list_insert_id. by rewrite list_lookup_fmap, Hl. }
  destruct c as [|a|a]; cbn [call].
  - pose proof (GetConnectAddress_slots rr) as Hs.
    unfold GetConnectAddress, bind, emit, ret, result in *.
    destruct (findUp _ _) as [x r']. cbn [fst snd] in *.
    destruct (decide (x = EmptyString)); cbn [fst snd] in *; by rewrite Hs.
  - rewrite MarkEndpointUp_unfold. cbn [result fst].
    specialize (Hmark a true).
    by destruct (result (changeEndpointStatus rr a true)).
  - rewrite MarkEndpointDown_unfold. cbn [result fst].
    specialize (Hmark a false).
    by destruct (result (changeEndpointStatus rr a false)).
Qed.

(** X11: no sequence of calls to [GetConnectAddress], [MarkEndpointUp] and
    [MarkEndpointDown] changes the backend name, the number of slots or,
    slot by slot, the address, ping URI and certificate path of an
    endpoint: only [Up] flags and the ring pointer change. *)
Theorem calls_keep_pool cs rr :
  backend (calls cs rr).2 = backend rr
  /\ length (slots (servers (calls cs rr).2)) = length (slots (servers rr))
  /\ fixedFields <$> slots (servers (calls cs rr).2)
     = fixedFields <$> slots (servers rr).
Proof.
  assert (backend (calls cs rr).2 = backend rr
          /\ fixedFields <$> slots (servers (calls cs rr).2)
             = fixedFields <$> slots (servers rr)) as [Hb Hs].
  { revert rr. induction cs as [|c cs IH]; intros rr; [done|].
    cbn [calls]. destruct (call_keeps_pool c rr) as [Hb Hs].
    destruct (call c rr) as [rep rr1]. cbn [snd] in Hb, Hs.
    destruct (IH rr1) as [Hb' Hs'].
    destruct (calls cs rr1) as [reps rr2]. cbn [snd] in *.
    split; congruence. }
  split; [done|]. split; [|done].
  apply (f_equal length) in Hs. by rewrite !length_fmap in Hs.
Qed.

(** *** Addresses that cannot be marked *)

Lemma Split_nonempty s sep : strings.Split s sep <> [].
Proof.
  destruct s as [|c s]; [done|]. cbn [strings.Split].
  destruct (decide (c = sep)); [done|].
  by destruct (strings.Split s sep).
Qed.

Lemma Split_length_app s1 s2 sep :
  length (strings.Split (s1 +:+ s2) sep) + 1
  = length (strings.Split s1 sep) + length (strings.Split s2 sep).
Proof.
  induction s1 as [|c s1 IH].
  - change (EmptyString +:+ s2) with s2. cbn [strings.Split length]. lia.
  - change (String c s1 +:+ s2) with (String c (s1 +:+ s2)).
    cbn [strings.Split]. destruct (decide (c = sep)).
    + cbn [length]. lia.
    + pose proof (Split_nonempty (s1 +:+ s2) sep).
      pose proof (Split_nonempty s1 sep).
      destruct (strings.Split (s1 +:+ s2) sep), (strings.Split s1 sep);
        try done.
Qed.

Lemma Split_uint d :
  length (strings.Split (NilEmpty.string_of_uint d) ":") = 1.
Proof.
  induction d as [|d IH|d IH|d IH|d IH|d IH|d IH|d IH|d IH|d IH|d IH];
    [done|..]; cbn [NilEmpty.string_of_uint strings.Split];
    (destruct (decide _) as [|_]; [done|]);
    by destruct (strings.Split _ _) as [|f [|? ?]].
Qed.

Lemma Split_formatInt z : length (strings.Split (fmt.formatInt z) ":") = 1.
Proof.
  unfold fmt.formatInt, NilZero.string_of_int.
  assert (forall d, length (strings.Split (NilZero.string_of_uint d) ":") = 1)
    as Hu.
  { intros d. unfold NilZero.string_of_uint.
    destruct d; try apply Split_uint. done. }
  destruct (Z.to_int z) as [d|d]; [apply Hu|].
  cbn [strings.Split]. destruct (decide _) as [|_]; [done|].
  specialize (Hu d). by destruct (strings.Split _ _) as [|f [|? ?]].
Qed.

(** The address of an endpoint has one field more than the host of its
    server. *)
Lemma Split_connectAddress s :
  length (strings.Split (connectAddress s) ":")
  = S (length (strings.Split (config.Address s) ":")).
Proof.
  unfold connectAddress.
  pose proof (Split_length_app (config.Address s)
                (":" +:+ fmt.formatInt (config.Port s)) ":") as H.
  change (":" +:+ fmt.formatInt (config.Port s))
    with (String ":" (fmt.formatInt (config.Port s))) in *.
  cbn [strings.Split] in H. destruct (decide _) as [_|]; [|done].
  cbn [length] in H. rewrite Split_formatInt in H. lia.
Qed.

Lemma NewLoadBalancer_inv backendName caCertPath
    (ss : list config.ServerConfig) rr :
  result (NewLoadBalancer backendName caCertPath ss) = (Some rr, None) ->
  backendName <> EmptyString /\ ss <> []
  /\ rr = mkRR backendName (mkRing (newSlots caCertPath ss) 0).
Proof.
  intros Hnew.
  destruct (decide (backendName = EmptyString)) as [->|Hb]; [done|].
  destruct (decide (ss = [])) as [->|Hs].
  { unfold NewLoadBalancer in Hnew.
    by destruct (decide (backendName = EmptyString)). }
  rewrite NewLoadBalancer_builds in Hnew by done.
  by injection Hnew as <-.
Qed.

Lemma changeEndpointStatus_form rr a st :
  a <> EmptyString -> length (strings.Split a ":") <> 2 ->
  result (changeEndpointStatus rr a st) = (Some (ErrAddressForm a), rr).
Proof.
  intros Ha Hlen. unfold changeEndpointStatus.
  destruct (decide (a = EmptyString)); [done|].
  by destruct (decide (length (strings.Split a ":") = 2)).
Qed.

(** X12: an endpoint that [NewLoadBalancer] built from a server can be
    marked, by the address [NewLoadBalancer] gave it, exactly when the host
    of the server holds no colon: then [MarkEndpointDown] and
    [MarkEndpointUp] succeed on that address; for a host with a colon, an
    IPv6 literal for one, both refuse the endpoint's own address as not of
    the form host:port and change nothing. *)
Theorem markable_iff_host_without_colon backendName caCertPath
    (ss : list config.ServerConfig) s rr :
  result (NewLoadBalancer backendName caCertPath ss) = (Some rr, None) ->
  s ∈ ss ->
  (length (strings.Split (config.Address s) ":") = 1 ->
     (exists rr', result (MarkEndpointDown rr (connectAddress s)) = (None, rr'))
     /\ (exists rr', result (MarkEndpointUp rr (connectAddress s)) = (None, rr')))
  /\ (length (strings.Split (config.Address s) ":") <> 1 ->
       result (MarkEndpointDown rr (connectAddress s))
       = (Some (ErrAddressForm (connectAddress s)), rr)
       /\ result (MarkEndpointUp rr (connectAddress s))
          = (Some (ErrAddressForm (connectAddress s)), rr)).
Proof.
  intros Hnew Hin.
  destruct (NewLoadBalancer_inv _ _ _ _ Hnew) as (Hb & Hs & ->).
  rewrite MarkEndpointDown_unfold, MarkEndpointUp_unfold. cbn [result fst].
  pose proof (Split_connectAddress s) as Hlen.
  pose proof (connectAddress_nonempty s) as Hne.
  split; intros Hhost.
  - assert (forall st, exists rr',
              result (changeEndpointStatus
                        (mkRR backendName (mkRing (newSlots caCertPath ss) 0))
                        (connectAddress s) st) = (None, rr')) as Hmark.
    { intros st. apply changeEndpointStatus_present.
      - left. cbn [servers slots pos]. rewrite newSlots_length.
        destruct ss; [done | simpl; lia].
      - split; [done | lia].
      - exists (newEndpoint caCertPath s). split; [|done].
        cbn [servers slots]. unfold newSlots.
        by apply (list_elem_of_fmap_2 (fun s => Some (newEndpoint caCertPath s))). }
    split; apply Hmark.
  - split; apply changeEndpointStatus_form; (done || lia).
Qed.

Lemma markable_iff_host_without_colon_witness :
  (exists rr', result (MarkEndpointDown pool123 "a:2") = (None, rr'))
  /\ result (MarkEndpointDown (mkRR "backend" (mkRing (newSlots "" loopback6) 0))
                "::1:8080")
     = (Some "Expected connect address in the form of host:port (::1:8080)"%string,
        mkRR "backend" (mkRing (newSlots "" loopback6) 0)).
Proof.
  split.
  - refine (proj1 (proj1 (markable_iff_host_without_colon
                            "backend" "" a123 (server "a" 2) pool123 _ _) _)).
    + reflexivity.
    + right. left.
    + reflexivity.
  - refine (proj1 (proj2 (markable_iff_host_without_colon
                            "backend" "" loopback6 (server "::1" 8080) _ _ _) _)).
    + reflexivity.
    + left.
    + vm_compute. lia.
Defined.

(** X13: a load balancer that [NewLoadBalancer] returns has cost, server
    by server and in their order, one gauge set to one and then one health
    check started for that server's endpoint, and nothing else; a refused
    construction has set no gauge and started no health check. *)
Theorem NewLoadBalancer_events backendName caCertPath
    (ss : list config.ServerConfig) :
  (backendName = EmptyString \/ ss = [] ->
     events (NewLoadBalancer backendName caCertPath ss) = [])
  /\ (backendName <> EmptyString -> ss <> [] ->
       events (NewLoadBalancer backendName caCertPath ss)
       = concat ((fun s =>
                    [SetGauge ["endpoint"%string;
                               config.Address s +:+ ":"
                                 +:+ fmt.formatInt (config.Port s)] 1;
                     GoHealthCheck
                       (config.Address s +:+ ":"
                          +:+ fmt.formatInt (config.Port s)) s]) <$> ss)).
Proof.
  split.
  - intros Hbad. unfold NewLoadBalancer.
    destruct (decide (backendName = EmptyString)); [done|].
    destruct (decide (length ss = 0)); [done|].
    destruct Hbad as [? | ->]; done.
  - intros Hb Hs. by rewrite NewLoadBalancer_builds.
Qed.

Lemma NewLoadBalancer_events_witness :
  events (NewLoadBalancer "" "" a123) = []
  /\ events (NewLoadBalancer "backend" "" loopback6)
     = [SetGauge ["endpoint"%string; "::1:8080"%string] 1;
        GoHealthCheck "::1:8080" (server "::1" 8080)].
Proof.
  split.
  - apply (proj1 (NewLoadBalancer_events "" "" a123)). by left.
  - apply (proj2 (NewLoadBalancer_events "backend" "" loopback6));
      discriminate.
Defined.

End MarkSequences.

(** * The runner *)

Section RunnerFacts.
Import runner.

Lemma exit_flag_args BuildVersion (args : list string) :
  (dumpVersionAndExit BuildVersion args).2 = true ->
  exists program, args = [program; "-version"%string].
Proof.
  unfold dumpVersionAndExit.
  destruct (decide _) as [[Hlen Hflag]|Hno]; cbn [snd]; [intros _|done].
  destruct args as [|program [|flag [|? ?]]]; try done.
  injection Hflag as ->. by exists program.
Qed.

(** X14: [dumpVersionAndExit] asks to exit exactly when the arguments are
    the program name followed by [-version] and nothing else; the text is
    then the program name, ": build version " and the build version, or
    "<not specified>" when the build version is empty; when it does not ask
    to exit, the text is the build version as it is. *)
Theorem version_switch BuildVersion (args : list string) :
  ((dumpVersionAndExit BuildVersion args).2 = true
   <-> exists program, args = [program; "-version"%string])
  /\ (forall program,
        args = [program; "-version"%string] ->
        (BuildVersion = EmptyString ->
           (dumpVersionAndExit BuildVersion args).1
           = program +:+ ": build version <not specified>")
        /\ (BuildVersion <> EmptyString ->
             (dumpVersionAndExit BuildVersion args).1
             = program +:+ ": build version " +:+ BuildVersion))
  /\ ((dumpVersionAndExit BuildVersion args).2 = false ->
      (dumpVersionAndExit BuildVersion args).1 = BuildVersion).
Proof.
  split; [|split].
  - split; [apply exit_flag_args|].
    intros [program ->]. unfold dumpVersionAndExit. by rewrite decide_True.
  - intros program ->. unfold dumpVersionAndExit.
    rewrite decide_True by done. cbn [fst lookup].
    split; [intros -> | intros Hv].
    + reflexivity.
    + by destruct (decide (BuildVersion = EmptyString)).
  - unfold dumpVersionAndExit. by destruct (decide _).
Qed.

Lemma version_switch_witness :
  (dumpVersionAndExit "" ["xavi"; "-version"]%string).1
  = "xavi: build version <not specified>"%string
  /\ (dumpVersionAndExit "20160129.1" ["xavi"; "-version"]%string).1
     = "xavi: build version 20160129.1"%string
  /\ (dumpVersionAndExit "20160129.1" ["xavi"; "-version"; "now"]%string).1
     = "20160129.1"%string.
Proof.
  split; [|split].
  - apply (proj1 (proj1 (proj2 (version_switch "" ["xavi"; "-version"]%string))
                    "xavi"%string eq_refl)).
    reflexivity.
  - apply (proj2 (proj1 (proj2 (version_switch "20160129.1"
                                  ["xavi"; "-version"]%string))
                    "xavi"%string eq_refl)).
    discriminate.
  - apply (proj2 (proj2 (version_switch "20160129.1"
                           ["xavi"; "-version"; "now"]%string))).
    reflexivity.
Defined.

Context (Getenv : string -> string) {KVStore : Type}
        (newKVStore : string -> KVStore * option error)
        (doMain : list string -> KVStore -> Z)
        (BuildVersion : string).

Lemma andThen_value {A B} t (a : A) (k : A -> Proc B) :
  andThen (t, Some a) k = (t ++ (k a).1, (k a).2).
Proof. reflexivity. Qed.

Lemma andThen_stop {A B} t (k : A -> Proc B) :
  andThen (t, None) k = (t, None).
Proof. reflexivity. Qed.

Lemma setupXAVIEnvironment_actions plugin :
  setupXAVIEnvironment Getenv KVStore newKVStore plugin
  = ((if plugin then [RegisterPlugins] else [])
       ++ (if decide (Getenv KVStoreURL = EmptyString)
           then [Fatal ("Required environment variable " +:+ KVStoreURL
                          +:+ " for configuration KV store must be specified")]
           else NewKVStore (Getenv KVStoreURL)
                  :: match (newKVStore (Getenv KVStoreURL)).2 with
                     | Some e => [Fatal e]
                     | None => []
                     end),
     if decide (Getenv KVStoreURL = EmptyString) then None
     else match (newKVStore (Getenv KVStoreURL)).2 with
          | Some e => None
          | None => Some (newKVStore (Getenv KVStoreURL)).1
          end).
Proof.
  unfold setupXAVIEnvironment, getKVStoreEndpoint, andThen, act, pure, stop.
  destruct plugin; cbn [fst snd];
    (destruct (decide (Getenv KVStoreURL = EmptyString)); cbn [fst snd app];
     [done|]);
    by destruct (newKVStore (Getenv KVStoreURL)) as [kvs [e|]].
Qed.

(** The actions of a run that is not stopped by the version switch. *)
Lemma Run_actions osArgs args plugin :
  (dumpVersionAndExit BuildVersion osArgs).2 = false ->
  Run Getenv KVStore newKVStore doMain BuildVersion osArgs args plugin
  = ((if decide (Getenv PProfEndpoint = EmptyString) then []
      else [ListenAndServe (Getenv PProfEndpoint)])
       ++ (if plugin then [RegisterPlugins] else [])
       ++ (if decide (Getenv KVStoreURL = EmptyString)
           then [Fatal ("Required environment variable " +:+ KVStoreURL
                          +:+ " for configuration KV store must be specified")]
           else NewKVStore (Getenv KVStoreURL)
                  :: match (newKVStore (Getenv KVStoreURL)).2 with
                     | Some e => [Fatal e]
                     | None =>
                         [DoMain args;
                          Exit (doMain args (newKVStore (Getenv KVStoreURL)).1)]
                     end),
     None).
Proof.
  intros Hv. unfold Run.
  destruct (dumpVersionAndExit BuildVersion osArgs) as [version exit].
  cbn [snd] in Hv. subst exit.
  assert (fireUpPProf Getenv
          = (if decide (Getenv PProfEndpoint = EmptyString) then []
             else [ListenAndServe (Getenv PProfEndpoint)],
             Some (negb (bool_decide (Getenv PProfEndpoint = EmptyString)))))
    as Hp.
  { unfold fireUpPProf.
    destruct (decide (Getenv PProfEndpoint = EmptyString)) as [E|E].
    - by rewrite bool_decide_eq_true_2.
    - by rewrite bool_decide_eq_false_2. }
  unfold pure at 1. rewrite andThen_value, Hp, andThen_value.
  rewrite setupXAVIEnvironment_actions. cbn [fst snd app].
  destruct (decide (Getenv KVStoreURL = EmptyString)).
  { by rewrite andThen_stop. }
  destruct ((newKVStore (Getenv KVStoreURL)).2) as [e|].
  { by rewrite andThen_stop. }
  rewrite andThen_value. unfold act. rewrite andThen_value.
  cbn [stop fst snd app]. by rewrite <- !app_assoc.
Qed.

Lemma Run_version_actions program args plugin :
  Run Getenv KVStore newKVStore doMain BuildVersion
      [program; "-version"%string] args plugin
  = ([Println (program +:+ ": build version "
                 +:+ (if decide (BuildVersion = EmptyString)
                      then "<not specified>"%string else BuildVersion));
      Exit 0],
     None).
Proof. unfold Run, dumpVersionAndExit. by rewrite decide_True. Qed.

(** X15: when [os.Args] is the program name followed by [-version], [Run]
    prints the version text and exits with status 0, and does nothing else:
    it reads no environment variable, registers no plugin, starts no
    profiler and contacts no key/value store, whatever its own arguments
    are. *)
Theorem Run_version program args plugin :
  Run Getenv KVStore newKVStore doMain BuildVersion
      [program; "-version"%string] args plugin
  = ([Println (program +:+ ": build version "
                 +:+ (if decide (BuildVersion = EmptyString)
                      then "<not specified>"%string else BuildVersion));
      Exit 0],
     None).
Proof. apply Run_version_actions. Qed.



(** X17: [shell.DoMain] is started only with the arguments given to [Run],
    only when the version switch is absent, the variable of the key/value
    store is set and the store has been opened without error, and then
    after the store has been opened; the plugins of a run without version
    switch are registered whether or not the store can be opened. *)
Theorem Run_main_needs_store osArgs args plugin :
  let actions :=
    (Run Getenv KVStore newKVStore doMain BuildVersion osArgs args plugin).1 in
  (forall args',
     DoMain args' ∈ actions ->
     args' = args
     /\ (dumpVersionAndExit BuildVersion osArgs).2 = false
     /\ Getenv KVStoreURL <> EmptyString
     /\ (newKVStore (Getenv KVStoreURL)).2 = None
     /\ exists before after,
          actions = before ++ NewKVStore (Getenv KVStoreURL)
                             :: DoMain args :: after)
  /\ ((dumpVersionAndExit BuildVersion osArgs).2 = false ->
      (RegisterPlugins ∈ actions <-> plugin = true)).
Proof.
  intros actions. subst actions.
  destruct ((dumpVersionAndExit BuildVersion osArgs).2) eqn:Hv.
  { apply exit_flag_args in Hv as [program ->]. rewrite Run_version_actions.
    split; [|done]. intros args' Hin. cbn [fst] in Hin.
    apply elem_of_cons in Hin as [|Hin]; [done|].
    apply elem_of_cons in Hin as [|Hin]; [done|].
    by apply elem_of_nil in Hin. }
  rewrite (Run_actions _ _ _ Hv). cbn [fst]. split.
  - intros args' Hin.
    apply elem_of_app in Hin as [Hin|Hin].
    { destruct (decide _); [by apply elem_of_nil in Hin|].
      apply elem_of_cons in Hin as [|Hin]; [done|].
      by apply elem_of_nil in Hin. }
    apply elem_of_app in Hin as [Hin|Hin].
    { destruct plugin; [|by apply elem_of_nil in Hin].
      apply elem_of_cons in Hin as [|Hin]; [done|].
      by apply elem_of_nil in Hin. }
    destruct (decide (Getenv KVStoreURL = EmptyString)).
    { apply elem_of_cons in Hin as [|Hin]; [done|].
      by apply elem_of_nil in Hin. }
    apply elem_of_cons in Hin as [|Hin]; [done|].
    destruct ((newKVStore (Getenv KVStoreURL)).2) as [e|].
    { apply elem_of_cons in Hin as [|Hin]; [done|].
      by apply elem_of_nil in Hin. }
    apply elem_of_cons in Hin as [[= ->]|Hin].
    + repeat split; [done..|].
      exists ((if decide (Getenv PProfEndpoint = EmptyString) then []
               else [ListenAndServe (Getenv PProfEndpoint)])
                ++ (if plugin then [RegisterPlugins] else [])),
             [Exit (doMain args (newKVStore (Getenv KVStoreURL)).1)].
      by rewrite <- !app_assoc.
    + apply elem_of_cons in Hin as [|Hin]; [done|].
      by apply elem_of_nil in Hin.
  - intros _. rewrite !elem_of_app. destruct plugin.
    + split; [done|]. intros _. right. left. by left.
    + split; [|done]. intros [Hin|[Hin|Hin]].
      * destruct (decide _); [by apply elem_of_nil in Hin|].
        apply elem_of_cons in Hin as [|Hin]; [done|].
        by apply elem_of_nil in Hin.
      * by apply elem_of_nil in Hin.
      * destruct (decide (Getenv KVStoreURL = EmptyString)).
        { apply elem_of_cons in Hin as [|Hin]; [done|].
          by apply elem_of_nil in Hin. }
        apply elem_of_cons in Hin as [|Hin]; [done|].
        destruct ((newKVStore (Getenv KVStoreURL)).2).
        { apply elem_of_cons in Hin as [|Hin]; [done|].
          by apply elem_of_nil in Hin. }
        apply elem_of_cons in Hin as [|Hin]; [done|].
        apply elem_of_cons in Hin as [|Hin]; [done|].
        by apply elem_of_nil in Hin.
Qed.

End RunnerFacts.

(** * The service factory *)

Section FactoryFacts.
Import service.
Context {KVStore Route Rest : Type}
        (ReadListenerConfig :
           string -> KVStore -> option ListenerConfig * option error)
        (buildRoute : string -> KVStore -> Route * option error)
        (newManagedService : managedService Rest)
        (AddRoute : managedService Rest -> Route -> managedService Rest).

Local Abbreviation readListenerConfig :=
  (readListenerConfig KVStore ReadListenerConfig).
Local Abbreviation addRoutes := (addRoutes KVStore Route Rest buildRoute AddRoute).
Local Abbreviation BuildServiceForListener :=
  (BuildServiceForListener KVStore Route Rest ReadListenerConfig buildRoute
     newManagedService AddRoute).
Local Abbreviation named := (named Rest newManagedService).

(** X18: [readListenerConfig] returns the configuration
    [config.ReadListenerConfig] returns; when that is [nil] its error is
    "Listener config '<name>' not found", whatever error came with the
    [nil], and otherwise the error is passed on; it never returns [nil]
    without an error. *)
Theorem readListenerConfig_not_found name kvs :
  (readListenerConfig name kvs).1 = (ReadListenerConfig name kvs).1
  /\ ((ReadListenerConfig name kvs).1 = None ->
      (readListenerConfig name kvs).2
      = Some ("Listener config '" +:+ name +:+ "' not found"))
  /\ ((ReadListenerConfig name kvs).1 <> None ->
      (readListenerConfig name kvs).2 = (ReadListenerConfig name kvs).2)
  /\ readListenerConfig name kvs <> (None, None).
Proof.
  unfold service.readListenerConfig.
  by destruct (ReadListenerConfig name kvs) as [[lc|] err].
Qed.

Lemma addRoutes_all_built routeNames kvs : forall ms,
  (forall routeName,
     routeName ∈ routeNames -> (buildRoute routeName kvs).2 = None) ->
  addRoutes routeNames kvs ms
  = ((Some (fold_left AddRoute
              ((fun routeName => (buildRoute routeName kvs).1) <$> routeNames)
              ms),
      None),
     routeNames).
Proof.
  induction routeNames as [|rn rns IH]; intros ms Hall; [done|].
  cbn [service.addRoutes fmap list_fmap fold_left].
  pose proof (Hall rn ltac:(by left)) as Hrn.
  destruct (buildRoute rn kvs) as [route err]. cbn [fst snd] in *. subst err.
  rewrite IH; [done|]. intros rn' Hin. apply Hall. by right.
Qed.

Lemma addRoutes_first_failure pre kvs rn post err : forall ms,
  (forall routeName,
     routeName ∈ pre -> (buildRoute routeName kvs).2 = None) ->
  (buildRoute rn kvs).2 = Some err ->
  addRoutes (pre ++ rn :: post) kvs ms = ((None, Some err), pre ++ [rn]).
Proof.
  induction pre as [|p pre IH]; intros ms Hall Hrn.
  - cbn [app service.addRoutes].
    destruct (buildRoute rn kvs) as [route e]. cbn [snd] in Hrn. by subst e.
  - cbn [app service.addRoutes].
    pose proof (Hall p ltac:(by left)) as Hp.
    destruct (buildRoute p kvs) as [route e]. cbn [snd] in Hp. subst e.
    rewrite IH; [done| |done]. intros rn' Hin. apply Hall. by right.
Qed.

Lemma addRoutes_one_of routeNames kvs : forall ms,
  (exists err, (addRoutes routeNames kvs ms).1 = (None, Some err))
  \/ (exists svc, (addRoutes routeNames kvs ms).1 = (Some svc, None)).
Proof.
  induction routeNames as [|rn rns IH]; intros ms; [right; by eexists|].
  cbn [service.addRoutes].
  destruct (buildRoute rn kvs) as [route [e|]]; [left; by eexists|].
  specialize (IH (AddRoute ms route)).
  by destruct (addRoutes rns kvs (AddRoute ms route)).
Qed.

(** X19: [BuildServiceForListener] returns either an error and no service
    or a service and no error, never both and never neither. *)
Theorem BuildServiceForListener_one_of name address kvs :
  (exists err,
     (BuildServiceForListener name address kvs).1 = (None, Some err))
  \/ (exists svc,
        (BuildServiceForListener name address kvs).1 = (Some svc, None)).
Proof.
  unfold service.BuildServiceForListener, service.readListenerConfig.
  destruct (ReadListenerConfig name kvs) as [[lc|] [e|]];
    try (left; by eexists).
  apply addRoutes_one_of.
Qed.

(** X20: when the listener is found and every one of its routes builds,
    [BuildServiceForListener] returns the service named after the listener,
    bound to the address given, with the routes added one by one in the
    order of the listener's route names, and it has built each route
    once, in that order. *)
Theorem BuildServiceForListener_builds name address kvs lc :
  ReadListenerConfig name kvs = (Some lc, None) ->
  (forall routeName,
     routeName ∈ RouteNames lc -> (buildRoute routeName kvs).2 = None) ->
  BuildServiceForListener name address kvs
  = ((Some (fold_left AddRoute
              ((fun routeName => (buildRoute routeName kvs).1)
                 <$> RouteNames lc)
              (mkManagedService Rest name (mkHealthCheckContext name) address
                                (rest Rest newManagedService))),
      None),
     RouteNames lc).
Proof.
  intros Hlc Hall.
  unfold service.BuildServiceForListener, service.readListenerConfig.
  rewrite Hlc. by apply addRoutes_all_built.
Qed.

(** X21: when a route of the listener fails to build,
    [BuildServiceForListener] returns the error of the first such route and
    no service, and the routes after it are not built. *)
Theorem BuildServiceForListener_first_failure name address kvs lc
    pre routeName post err :
  ReadListenerConfig name kvs = (Some lc, None) ->
  RouteNames lc = pre ++ routeName :: post ->
  (forall r, r ∈ pre -> (buildRoute r kvs).2 = None) ->
  (buildRoute routeName kvs).2 = Some err ->
  BuildServiceForListener name address kvs
  = ((None, Some err), pre ++ [routeName]).
Proof.
  intros Hlc Hnames Hpre Herr.
  unfold service.BuildServiceForListener, service.readListenerConfig.
  rewrite Hlc, Hnames. by apply addRoutes_first_failure.
Qed.

(** X22: when [config.ReadListenerConfig] returns no configuration, or a
    configuration together with an error, [BuildServiceForListener] builds
    no route and returns no service: the error is the not-found error of
    the listener in the first case and the error that came with the
    configuration in the second. *)
Theorem BuildServiceForListener_no_listener name address kvs :
  ((ReadListenerConfig name kvs).1 = None ->
     BuildServiceForListener name address kvs
     = ((None, Some ("Listener config '" +:+ name +:+ "' not found")), []))
  /\ (forall lc err,
        ReadListenerConfig name kvs = (Some lc, Some err) ->
        BuildServiceForListener name address kvs = ((None, Some err), [])).
Proof.
  unfold service.BuildServiceForListener, service.readListenerConfig.
  split.
  - destruct (ReadListenerConfig name kvs) as [[lc|] err]; [done|].
    by intros _.
  - by intros lc err ->.
Qed.

End FactoryFacts.

Lemma readListenerConfig_not_found_witness :
  (service.readListenerConfig unit service.listeners "l9" tt).2
  = Some "Listener config 'l9' not found"%string.
Proof.
  apply (proj1 (proj2 (readListenerConfig_not_found service.listeners "l9" tt))).
  reflexivity.
Defined.

Lemma BuildServiceForListener_builds_witness :
  service.BuildServiceForListener unit string (list string)
    service.listeners service.routes service.emptyService
    service.appendRoute "l2" ":8080" tt
  = ((Some (service.mkManagedService (list string) "l2"
              (service.mkHealthCheckContext "l2") ":8080"
              ["r1"; "r2"]%string),
      None),
     ["r1"; "r2"]%string).
Proof.
  apply (BuildServiceForListener_builds service.listeners service.routes
           service.emptyService service.appendRoute "l2" ":8080" tt
           (service.mkListenerConfig "l2" ["r1"; "r2"]%string)).
  - reflexivity.
  - intros routeName. cbn [service.RouteNames].
    rewrite !elem_of_cons, elem_of_nil.
    intros [-> | [-> | []]]; reflexivity.
Defined.

Lemma BuildServiceForListener_first_failure_witness :
  service.BuildServiceForListener unit string (list string)
    service.listeners service.routes service.emptyService
    service.appendRoute "l1" ":8080" tt
  = ((None, Some "Route 'bad' not found"%string), ["r1"; "r2"; "bad"]%string).
Proof.
  apply (BuildServiceForListener_first_failure service.listeners
           service.routes service.emptyService service.appendRoute
           "l1" ":8080" tt
           (service.mkListenerConfig "l1" ["r1"; "r2"; "bad"; "r3"]%string)
           ["r1"; "r2"]%string "bad" ["r3"]%string).
  - reflexivity.
  - reflexivity.
  - intros r. rewrite !elem_of_cons, elem_of_nil.
    intros [-> | [-> | []]]; reflexivity.
  - reflexivity.
Defined.

Lemma BuildServiceForListener_no_listener_witness :
  service.BuildServiceForListener unit string (list string)
    service.listeners service.routes service.emptyService
    service.appendRoute "l9" ":8080" tt
  = ((None, Some "Listener config 'l9' not found"%string), []).
Proof.
  apply (proj1 (BuildServiceForListener_no_listener service.listeners
                  service.routes service.emptyService service.appendRoute
                  "l9" ":8080" tt)).
  reflexivity.
Defined.

Lemma Run_main_needs_store_witness :
  ["listen"; "l1"; ":8080"]%string = ["listen"; "l1"; ":8080"]%string
  /\ (runner.dumpVersionAndExit "v1" ["xavi"; "listen"; "l1"; ":8080"]%string).2
     = false
  /\ runner.storeOnly runner.KVStoreURL <> EmptyString
  /\ (runner.openStore (runner.storeOnly runner.KVStoreURL)).2 = None
  /\ exists before after,
       (runner.Run runner.storeOnly unit runner.openStore (fun _ _ => 0%Z) "v1"
          ["xavi"; "listen"; "l1"; ":8080"]%string
          ["listen"; "l1"; ":8080"]%string true).1
       = before ++ runner.NewKVStore (runner.storeOnly runner.KVStoreURL)
                  :: runner.DoMain ["listen"; "l1"; ":8080"]%string :: after.
Proof.
  apply (proj1 (Run_main_needs_store runner.storeOnly runner.openStore
                  (fun _ _ => 0%Z) "v1"
                  ["xavi"; "listen"; "l1"; ":8080"]%string
                  ["listen"; "l1"; ":8080"]%string true)).
  right. right. left.
Defined.

